(** * prebidCurrencyRatesFileAlerter: a shallow embedding and its properties

    The development follows [src/prebidCurrencyRatesFileAlerter.js]: an AWS
    Lambda handler that fetches a currency-rates file from S3, compares its
    [dataAsOf] timestamp with the current time and e-mails an alert through
    SES when the file is stale or cannot be read.

    Layout:
    - [Number]: ECMAScript Number values (IEEE 754 binary64) with the
      operations the program applies to them; dates;
    - values, [parseFloat], [JSON.parse] ([Json]), Number::toString and
      the conversions string concatenation and [new Date] apply;
    - the effect monad: a trace of console, S3, SES and [context.done]
      events, and exceptions;
    - the functions of the [spec] object and [exports.handler];
    - the properties: the parsers, rounding to a Number, the day
      difference, the pipeline and the claims of the specification.

    Conventions of the model:
    - a string is the sequence of bytes of its UTF-8 form;
    - [-0] and [+0] are one Number;
    - a value is what [JSON.parse] delivers, or [undefined]: the members
      of an object are data, never functions;
    - [Date.parse] is a parameter: it depends on the host;
    - the environment, the clock and what the two AWS calls answer make
      up the [world] of an invocation;
    - a callback handed to an AWS client runs where the call is made: the
      call is the last action of its caller, so the events come in the
      same order, and an exception the callback throws is uncaught. *)

From Stdlib Require Import ZArith QArith Qround Qabs Qpower Qcanon Lia Lqa.
From Stdlib Require Import Ascii String.
From stdpp Require Import base strings list gmap pretty.

(** ** ECMAScript Number values *)

Module Number.

Local Open Scope Q_scope.

(** A Number is NaN, an infinity, or a finite binary64 value, carried here
    by the rational it denotes.  The two zeros are identified: the program
    only tests numbers for truthiness, compares them with [>] and rounds
    them, and none of these tells [-0] from [+0]. *)
Inductive jsnum : Type :=
| NaN
| PInf
| NInf
| Fin (q : Q).

Definition pow2 (e : Z) : Q := 2 ^ e.

(** Round to the nearest integer, ties to the even one: the rounding of
    binary64 significands. *)
Definition round_half_even (x : Q) : Z :=
  let f := Qfloor x in
  match Qcompare (x - inject_Z f) (1 # 2) with
  | Lt => f
  | Gt => (f + 1)%Z
  | Eq => if Z.even f then f else (f + 1)%Z
  end.

(** [ilog2 a] is the integer part of the binary logarithm of [a > 0]. *)
Definition ilog2 (a : Q) : Z :=
  let e0 := (Z.log2 (Qnum a) - Z.log2 (Zpos (Qden a)))%Z in
  if Qle_bool (pow2 e0) a then e0 else (e0 - 1)%Z.

(** The Number value for a real: round to nearest, ties to even, 53-bit
    significand, gradual underflow below 2^-1022, overflow to an infinity
    from 2^1024. *)
Definition binary64 (q : Q) : jsnum :=
  if Qeq_bool q 0 then Fin 0 else
  let s := Z.max (ilog2 (Qabs q) - 52) (-1074) in
  let r := inject_Z (round_half_even (q / pow2 s)) * pow2 s in
  if Qle_bool (pow2 1024) (Qabs r)
  then (if Qle_bool 0 q then PInf else NInf)
  else Fin (Qred r).

Definition of_Z (z : Z) : jsnum := binary64 (inject_Z z).

(** [x - y] *)
Definition js_sub (x y : jsnum) : jsnum :=
  match x, y with
  | NaN, _ | _, NaN => NaN
  | PInf, PInf | NInf, NInf => NaN
  | PInf, _ | _, NInf => PInf
  | NInf, _ | _, PInf => NInf
  | Fin a, Fin b => binary64 (a - b)
  end.

Definition Qneg_bool (q : Q) : bool := negb (Qle_bool 0 q).

(** [x * y] *)
Definition js_mul (x y : jsnum) : jsnum :=
  let inf_times (pos : bool) (b : Q) :=
    if Qeq_bool b 0 then NaN
    else if Bool.eqb pos (Qneg_bool b) then NInf else PInf in
  match x, y with
  | NaN, _ | _, NaN => NaN
  | PInf, PInf | NInf, NInf => PInf
  | PInf, NInf | NInf, PInf => NInf
  | PInf, Fin b | Fin b, PInf => inf_times true b
  | NInf, Fin b | Fin b, NInf => inf_times false b
  | Fin a, Fin b => binary64 (a * b)
  end.

(** [x / y]; a zero divisor is taken as [+0]. *)
Definition js_div (x y : jsnum) : jsnum :=
  match x, y with
  | NaN, _ | _, NaN => NaN
  | (PInf | NInf), (PInf | NInf) => NaN
  | PInf, Fin b => if Qneg_bool b then NInf else PInf
  | NInf, Fin b => if Qneg_bool b then PInf else NInf
  | Fin _, (PInf | NInf) => Fin 0
  | Fin a, Fin b =>
      if Qeq_bool b 0
      then (if Qeq_bool a 0 then NaN else if Qneg_bool a then NInf else PInf)
      else binary64 (a / b)
  end.

(** [x < y] of the language: false as soon as one side is NaN. *)
Definition js_lt (x y : jsnum) : bool :=
  match x, y with
  | NaN, _ | _, NaN => false
  | PInf, _ => false
  | _, NInf => false
  | NInf, _ => true
  | Fin _, PInf => true
  | Fin a, Fin b => negb (Qle_bool b a)
  end.

(** [x > y] is [y < x] with the operands evaluated left to right. *)
Definition js_gt (x y : jsnum) : bool := js_lt y x.

(** [x == y] on Numbers: NaN equals nothing. *)
Definition js_eq (x y : jsnum) : bool :=
  match x, y with
  | PInf, PInf | NInf, NInf => true
  | Fin a, Fin b => Qeq_bool a b
  | _, _ => false
  end.

(** [- x] *)
Definition js_neg (x : jsnum) : jsnum :=
  match x with
  | NaN => NaN
  | PInf => NInf
  | NInf => PInf
  | Fin q => Fin (Qred (- q))
  end.

(** ToBoolean on a Number: [0] and [NaN] are falsy. *)
Definition truthy (x : jsnum) : bool :=
  match x with
  | NaN => false
  | PInf | NInf => true
  | Fin q => negb (Qeq_bool q 0)
  end.

(** [Math.round]: the nearest integer, ties towards +Infinity. *)
Definition Math_round (x : jsnum) : jsnum :=
  match x with
  | Fin q => Fin (inject_Z (Qfloor (q + (1 # 2))))
  | _ => x
  end.

(** ToIntegerOrInfinity on a finite value: truncation towards zero. *)
Definition Qtrunc (q : Q) : Z :=
  if Qle_bool 0 q then Qfloor q else Qceiling q.

(** TimeClip: a time value is an integral number of milliseconds of
    magnitude at most 8.64e15, or NaN. *)
Definition TimeClip (t : jsnum) : jsnum :=
  match t with
  | Fin q =>
      if Qle_bool (Qabs q) (inject_Z 8640000000000000)
      then Fin (inject_Z (Qtrunc q)) else NaN
  | _ => NaN
  end.

End Number.

Export Number.

(** ** Dates *)

(** A Date object holds a time value ([[DateValue]]): milliseconds since
    the epoch, or NaN for an invalid date. *)
Inductive Date : Type := MkDate (tv : jsnum).

(** ToNumber on a Date, as applied by the binary [-]. *)
Definition valueOf (d : Date) : jsnum := let 'MkDate t := d in t.

Definition date_of_ms (t : Z) : Date := MkDate (Fin (inject_Z t)).

(** [1000 * 60 * 60 * 24] *)
Definition MS_PER_DAY : jsnum :=
  js_mul (js_mul (js_mul (of_Z 1000) (of_Z 60)) (of_Z 60)) (of_Z 24).

(** [spec.daysDifference(first, second)] *)
Definition daysDifference (first second : Date) : jsnum :=
  Math_round (js_div (js_sub (valueOf second) (valueOf first)) MS_PER_DAY).

(** ** Language values *)

(** The values [JSON.parse] can produce, and [undefined].  Strings are
    byte strings holding the UTF-8 form of the text; an object keeps its
    members in source order, the last binding of a key being the one a
    property read sees. *)
#[warnings="-register-all"]
Inductive value : Type :=
| VUndefined
| VNull
| VBool (b : bool)
| VNum (n : jsnum)
| VStr (s : string)
| VArr (elems : list value)
| VObj (members : list (string * value)).

Local Open Scope string_scope.

(** ToBoolean *)
Definition truthy (v : value) : bool :=
  match v with
  | VUndefined | VNull => false
  | VBool b => b
  | VNum n => Number.truthy n
  | VStr s => negb (String.eqb s EmptyString)
  | VArr _ | VObj _ => true
  end.

(** [a || b] *)
Definition js_or (a b : value) : value := if truthy a then a else b.

Fixpoint lookup_member (key : string) (members : list (string * value))
  : option value :=
  match members with
  | [] => None
  | (k, v) :: rest =>
      match lookup_member key rest with
      | Some v' => Some v'
      | None => if String.eqb k key then Some v else None
      end
  end.

Definition bytes (codes : list N) : string :=
  fold_right (fun c s => String (ascii_of_N c) s) EmptyString codes.

Definition is_prefix_of (p s : string) : bool := String.prefix p s.

Fixpoint drop_chars (n : nat) (s : string) : string :=
  match n, s with
  | S n', String _ rest => drop_chars n' rest
  | _, _ => s
  end.

Definition drop_prefix (p s : string) : string :=
  drop_chars (String.length p) s.

(** ** Numeric literals *)

Definition digit_of (c : ascii) : option N :=
  let n := N_of_ascii c in
  if ((48 <=? n) && (n <=? 57))%N then Some (n - 48)%N else None.

(** Reads a maximal run of decimal digits after the digits already read
    into [acc]; returns the number read so far, how many digits this run
    had and the rest of the input. *)
Fixpoint read_digits (acc : N) (count : nat) (s : string) : N * nat * string :=
  match s with
  | String c rest =>
      match digit_of c with
      | Some d => read_digits (acc * 10 + d) (S count) rest
      | None => (acc, count, s)
      end
  | EmptyString => (acc, count, s)
  end.

(** The real [m * 10 ^ e]. *)
Definition decimal_value (m : N) (e : Z) : Q :=
  if (0 <=? e)%Z then inject_Z (Z.of_N m * 10 ^ e)
  else Qmake (Z.of_N m) (Z.to_pos (10 ^ (- e))).

Definition signed (negative : bool) (q : Q) : Q :=
  if negative then Qopp q else q.

(** [e] or [E], an optional sign and at least one digit; [None] when the
    input does not start with a complete exponent part. *)
Definition read_exponent (s : string) : option (Z * string) :=
  match s with
  | String c rest =>
      if (Ascii.eqb c "e" || Ascii.eqb c "E")%char then
        let '(negative, rest1) :=
          match rest with
          | String "-"%char r => (true, r)
          | String "+"%char r => (false, r)
          | _ => (false, rest)
          end in
        let '(x, count, rest2) := read_digits 0 0 rest1 in
        match count with
        | O => None
        | S _ => Some (if negative then (- Z.of_N x)%Z else Z.of_N x, rest2)
        end
      else None
  | EmptyString => None
  end.

(** *** [parseFloat] *)

(** StrWhiteSpaceChar, as UTF-8: TAB, LF, VT, FF, CR, SP, NBSP, the
    space separators of category Zs, LS, PS and ZWNBSP. *)
Definition white_space : list string :=
  map bytes
    (app [[9]; [10]; [11]; [12]; [13]; [32]; [194; 160]; [225; 154; 128]]
    (app (map (fun c => [226; 128; c])
              [128; 129; 130; 131; 132; 133; 134; 135; 136; 137; 138])
         [[226; 128; 168]; [226; 128; 169]; [226; 128; 175]; [226; 129; 159];
          [227; 128; 128]; [239; 187; 191]]))%N.

Definition leading_white_space (s : string) : option string :=
  match filter (fun w => is_prefix_of w s) white_space with
  | w :: _ => Some w
  | [] => None
  end.

(** Removes leading white space; [fuel] bounds the number of white-space
    characters and the length of the input is always enough. *)
Fixpoint trim_start (fuel : nat) (s : string) : string :=
  match fuel with
  | O => s
  | S fuel' =>
      match leading_white_space s with
      | Some w => trim_start fuel' (drop_prefix w s)
      | None => s
      end
  end.

(** [parseFloat(text)]: the longest prefix of the trimmed text that is a
    StrDecimalLiteral, or NaN when there is none. *)
Definition parseFloat_string (text : string) : jsnum :=
  let trimmed := trim_start (String.length text) text in
  let '(negative, unsigned) :=
    match trimmed with
    | String "-"%char r => (true, r)
    | String "+"%char r => (false, r)
    | _ => (false, trimmed)
    end in
  if is_prefix_of "Infinity" unsigned then (if negative then NInf else PInf)
  else
    let '(int_part, int_count, rest1) := read_digits 0 0 unsigned in
    let '(mantissa, frac_count, rest2) :=
      match rest1 with
      | String "."%char r => read_digits int_part 0 r
      | _ => (int_part, O, rest1)
      end in
    match (int_count + frac_count)%nat with
    | O => NaN
    | S _ =>
        let exponent :=
          match read_exponent rest2 with
          | Some (x, _) => x
          | None => 0%Z
          end in
        binary64 (signed negative
                    (decimal_value mantissa (exponent - Z.of_nat frac_count)))
    end.

(** [parseFloat(process.env.NAME)]: the argument goes through ToString,
    so an unset variable is parsed as the text [undefined]. *)
Definition parseFloat (arg : option string) : jsnum :=
  parseFloat_string (default "undefined" arg).

(** *** [JSON.parse] *)

Module Json.

Definition is_ws (c : ascii) : bool :=
  let n := N_of_ascii c in
  ((n =? 32) || (n =? 9) || (n =? 10) || (n =? 13))%N.

Fixpoint skip_ws (s : string) : string :=
  match s with
  | String c rest => if is_ws c then skip_ws rest else s
  | EmptyString => s
  end.

Definition is_quote (c : ascii) : bool := (N_of_ascii c =? 34)%N.

Definition is_char (c : ascii) (x : ascii) : bool := Ascii.eqb c x.

Arguments is_char c%_char x%_char.

Definition hex_of (c : ascii) : option N :=
  let n := N_of_ascii c in
  if ((48 <=? n) && (n <=? 57))%N then Some (n - 48)%N
  else if ((65 <=? n) && (n <=? 70))%N then Some (n - 55)%N
  else if ((97 <=? n) && (n <=? 102))%N then Some (n - 87)%N
  else None.

Definition hex4 (a b c d : ascii) : option N :=
  match hex_of a, hex_of b, hex_of c, hex_of d with
  | Some x, Some y, Some z, Some w => Some (((x * 16 + y) * 16 + z) * 16 + w)%N
  | _, _, _, _ => None
  end.

(** The character a two-character escape stands for: the quote, the
    backslash and the slash stand for themselves, then b, f, n, r and t. *)
Definition simple_escape (c : ascii) : option ascii :=
  let n := N_of_ascii c in
  if ((n =? 34) || (n =? 92) || (n =? 47))%N then Some c
  else if (n =? 98)%N then Some (ascii_of_N 8)
  else if (n =? 102)%N then Some (ascii_of_N 12)
  else if (n =? 110)%N then Some (ascii_of_N 10)
  else if (n =? 114)%N then Some (ascii_of_N 13)
  else if (n =? 116)%N then Some (ascii_of_N 9)
  else None.

(** An item of a string literal: a byte of the source text, or the code
    unit of a [\uXXXX] escape. *)
Definition item : Type := (ascii + N)%type.

Definition cons_item (i : item) (r : option (list item * string))
  : option (list item * string) :=
  match r with
  | Some (items, rest) => Some (i :: items, rest)
  | None => None
  end.

(** Reads a string literal after its opening quote, up to and including
    the closing quote.  Control characters must be escaped. *)
Fixpoint read_string (s : string) : option (list item * string) :=
  match s with
  | EmptyString => None
  | String c rest =>
      if is_quote c then Some ([], rest)
      else if is_char c "\" then
        match rest with
        | String e rest' =>
            if is_char e "u" then
              match rest' with
              | String a (String b (String c' (String d rest''))) =>
                  match hex4 a b c' d with
                  | Some unit => cons_item (inr unit) (read_string rest'')
                  | None => None
                  end
              | _ => None
              end
            else
              match simple_escape e with
              | Some ch => cons_item (inl ch) (read_string rest')
              | None => None
              end
        | EmptyString => None
        end
      else if (N_of_ascii c <? 32)%N then None
      else cons_item (inl c) (read_string rest)
  end.

(** UTF-8 (generalised to lone surrogates) of a code point. *)
Definition utf8 (cp : N) : string :=
  (if cp <? 128 then bytes [cp]
   else if cp <? 2048 then bytes [192 + cp / 64; 128 + cp mod 64]
   else if cp <? 65536 then
     bytes [224 + cp / 4096; 128 + (cp / 64) mod 64; 128 + cp mod 64]
   else
     bytes [240 + cp / 262144; 128 + (cp / 4096) mod 64;
            128 + (cp / 64) mod 64; 128 + cp mod 64])%N.

Definition is_high (u : N) : bool := ((55296 <=? u) && (u <=? 56319))%N.
Definition is_low (u : N) : bool := ((56320 <=? u) && (u <=? 57343))%N.

Definition flush (pending : option N) : string :=
  match pending with
  | Some hi => utf8 hi
  | None => EmptyString
  end.

(** The text of a string literal; an escaped high surrogate followed by an
    escaped low surrogate is one code point. *)
Fixpoint text_of (pending : option N) (items : list item) : string :=
  match items with
  | [] => flush pending
  | inl c :: rest => flush pending ++ String c (text_of None rest)
  | inr u :: rest =>
      match pending with
      | Some hi =>
          if is_low u
          then utf8 (65536 + (hi - 55296) * 1024 + (u - 56320))%N
               ++ text_of None rest
          else if is_high u then utf8 hi ++ text_of (Some u) rest
          else utf8 hi ++ utf8 u ++ text_of None rest
      | None =>
          if is_high u then text_of (Some u) rest
          else utf8 u ++ text_of None rest
      end
  end.

(** A JSON number: [-]? int frac? exp?, without leading zeros. *)
Definition read_number (s : string) : option (jsnum * string) :=
  let '(negative, s1) :=
    match s with
    | String c r => if is_char c "-" then (true, r) else (false, s)
    | EmptyString => (false, s)
    end in
  let int :=
    match s1 with
    | String c r =>
        if is_char c "0" then Some (0%N, r)
        else
          let '(i, count, r') := read_digits 0 0 s1 in
          match count with O => None | S _ => Some (i, r') end
    | EmptyString => None
    end in
  match int with
  | None => None
  | Some (i, r1) =>
      let frac :=
        match r1 with
        | String c r =>
            if is_char c "." then
              let '(m, count, r2) := read_digits i 0 r in
              match count with O => None | S _ => Some (m, count, r2) end
            else Some (i, O, r1)
        | EmptyString => Some (i, O, r1)
        end in
      match frac with
      | None => None
      | Some (m, frac_count, r2) =>
          let exp :=
            match r2 with
            | String c _ =>
                if (is_char c "e" || is_char c "E")%bool
                then read_exponent r2
                else Some (0%Z, r2)
            | EmptyString => Some (0%Z, r2)
            end in
          match exp with
          | None => None
          | Some (x, r3) =>
              Some (binary64 (signed negative
                                (decimal_value m (x - Z.of_nat frac_count))),
                    r3)
          end
      end
  end.

Definition literal (word : string) (v : value) (s : string)
  : option (value * string) :=
  if is_prefix_of word s then Some (v, drop_prefix word s) else None.

(** JSONValue, given the parsers of the elements of an array and of the
    members of an object after the opening bracket. *)
Definition value_step
    (elements : string -> option (list value * string))
    (members : string -> option (list (string * value) * string))
    (s : string) : option (value * string) :=
  let s := skip_ws s in
  match s with
  | EmptyString => None
  | String c rest =>
      if is_char c "n" then literal "null" VNull s
      else if is_char c "t" then literal "true" (VBool true) s
      else if is_char c "f" then literal "false" (VBool false) s
      else if is_char c "[" then
        match skip_ws rest with
        | String c' rest' =>
            if is_char c' "]" then Some (VArr [], rest')
            else
              match elements rest with
              | Some (vs, rest'') => Some (VArr vs, rest'')
              | None => None
              end
        | EmptyString => None
        end
      else if is_char c "{" then
        match skip_ws rest with
        | String c' rest' =>
            if is_char c' "}" then Some (VObj [], rest')
            else
              match members rest with
              | Some (ms, rest'') => Some (VObj ms, rest'')
              | None => None
              end
        | EmptyString => None
        end
      else if is_quote c then
        match read_string rest with
        | Some (items, rest') => Some (VStr (text_of None items), rest')
        | None => None
        end
      else
        match read_number s with
        | Some (n, rest') => Some (VNum n, rest')
        | None => None
        end
  end.

(** The elements of an array up to and including the closing bracket. *)
Definition elements_step
    (value_ : string -> option (value * string))
    (elements : string -> option (list value * string))
    (s : string) : option (list value * string) :=
  match value_ s with
  | Some (v, rest) =>
      match skip_ws rest with
      | String c rest' =>
          if is_char c "," then
            match elements rest' with
            | Some (vs, rest'') => Some (v :: vs, rest'')
            | None => None
            end
          else if is_char c "]" then Some ([v], rest')
          else None
      | EmptyString => None
      end
  | None => None
  end.

(** The members of an object up to and including the closing brace. *)
Definition members_step
    (value_ : string -> option (value * string))
    (members : string -> option (list (string * value) * string))
    (s : string) : option (list (string * value) * string) :=
  match skip_ws s with
  | String c rest =>
      if is_quote c then
        match read_string rest with
        | Some (items, rest1) =>
            match skip_ws rest1 with
            | String c1 rest2 =>
                if is_char c1 ":" then
                  match value_ rest2 with
                  | Some (v, rest3) =>
                      let member := (text_of None items, v) in
                      match skip_ws rest3 with
                      | String c3 rest4 =>
                          if is_char c3 "," then
                            match members rest4 with
                            | Some (ms, rest5) => Some (member :: ms, rest5)
                            | None => None
                            end
                          else if is_char c3 "}" then Some ([member], rest4)
                          else None
                      | EmptyString => None
                      end
                  | None => None
                  end
                else None
            | EmptyString => None
            end
        | None => None
        end
      else None
  | EmptyString => None
  end.

(** Recursive descent over JSONValue.  The fuel bounds the depth of the
    calls; twice the length of the text, plus two, is always enough
    (Lemma [parse_value_fuel]). *)
Fixpoint parse_value (fuel : nat) (s : string) : option (value * string) :=
  match fuel with
  | O => None
  | S fuel' => value_step (parse_elements fuel') (parse_members fuel') s
  end

with parse_elements (fuel : nat) (s : string) : option (list value * string) :=
  match fuel with
  | O => None
  | S fuel' => elements_step (parse_value fuel') (parse_elements fuel') s
  end

with parse_members (fuel : nat) (s : string)
  : option (list (string * value) * string) :=
  match fuel with
  | O => None
  | S fuel' => members_step (parse_value fuel') (parse_members fuel') s
  end.

(** [JSON.parse(text)] without a reviver: the value of the text, or [None]
    where the built-in throws a SyntaxError. *)
Definition parse (text : string) : option value :=
  match parse_value (2 * String.length text + 2) text with
  | Some (v, rest) =>
      match skip_ws rest with
      | EmptyString => Some v
      | _ => None
      end
  | None => None
  end.

(** A parser consumes: what it leaves is shorter than what it was given. *)
Definition consumes {A} (p : string -> option (A * string)) : Prop :=
  forall s a rest,
    p s = Some (a, rest) -> (String.length rest < String.length s)%nat.

End Json.

(** ** Conversions *)

Definition dquote : string := String (ascii_of_N 34) EmptyString.

(** *** Number::toString *)

Definition pow10 (e : Z) : Q := 10 ^ e.

(** The [n] with 10^(n-1) <= a < 10^n, for [a > 0]: an estimate from the
    binary logarithm, off by one at most, then corrected. *)
Definition magnitude (a : Q) : Z :=
  let n0 := (ilog2 a * 1233 / 4096 + 1)%Z in
  let n1 := if Qle_bool (pow10 n0) a then (n0 + 1)%Z else n0 in
  let n2 := if Qle_bool (pow10 n1) a then (n1 + 1)%Z else n1 in
  let n3 := if Qle_bool (pow10 (n2 - 1)) a then n2 else (n2 - 1)%Z in
  if Qle_bool (pow10 (n3 - 1)) a then n3 else (n3 - 1)%Z.

(** [c * 10 ^ (n - k)] reads back as the Number [x]. *)
Definition reads_back (x : Q) (c : Z) (scale : Q) : bool :=
  match binary64 (inject_Z c * scale) with
  | Fin y => Qeq_bool y x
  | _ => false
  end.

(** The digits [s], their number [k] and the exponent [n] of
    Number::toString: [k] is the least number of digits such that
    [s * 10 ^ (n - k)] reads back as [x > 0]; of two candidates the closer
    to [x] is taken, the even one on a tie.  Seventeen digits always do. *)
Fixpoint shortest_digits (fuel : nat) (k : Z) (x : Q) (n : Z) : Z * Z * Z :=
  let scale := pow10 (n - k) in
  let lo := Qfloor (x / scale) in
  let hi := (lo + 1)%Z in
  let pick (c : Z) :=
    if (c =? 10 ^ k)%Z then ((10 ^ (k - 1))%Z, k, (n + 1)%Z) else (c, k, n) in
  match fuel with
  | O => pick lo
  | S fuel' =>
      match reads_back x lo scale, reads_back x hi scale with
      | true, true =>
          match Qcompare (x - inject_Z lo * scale) (inject_Z hi * scale - x) with
          | Lt => pick lo
          | Gt => pick hi
          | Eq => if Z.even lo then pick lo else pick hi
          end
      | true, false => pick lo
      | false, true => pick hi
      | false, false => shortest_digits fuel' (k + 1)%Z x n
      end
  end.

Definition zeros (count : Z) : string :=
  String.concat EmptyString (repeat "0" (Z.to_nat count)).

Definition Number_toString_positive (x : Q) : string :=
  let '(s, k, n) := shortest_digits 17 1 x (magnitude x) in
  let digits : string := pretty s in
  if ((k <=? n) && (n <=? 21))%Z then digits ++ zeros (n - k)
  else if ((0 <? n) && (n <=? 21))%Z then
    String.substring 0 (Z.to_nat n) digits ++ "." ++
    String.substring (Z.to_nat n) (Z.to_nat (k - n)) digits
  else if ((-6 <? n) && (n <=? 0))%Z then "0." ++ zeros (- n) ++ digits
  else
    let e := (n - 1)%Z in
    let exponent :=
      (if (e <? 0)%Z then "-" else "+") ++ pretty (Z.abs e) in
    if (k =? 1)%Z then digits ++ "e" ++ exponent
    else
      String.substring 0 1 digits ++ "." ++
      String.substring 1 (Z.to_nat (k - 1)) digits ++ "e" ++ exponent.

(** Number::toString, radix 10. *)
Definition Number_toString (n : jsnum) : string :=
  match n with
  | NaN => "NaN"
  | PInf => "Infinity"
  | NInf => "-Infinity"
  | Fin q =>
      if Qeq_bool q 0 then "0"
      else if Qle_bool 0 q then Number_toString_positive q
      else "-" ++ Number_toString_positive (Qopp q)
  end.

(** The exceptions the program can meet. *)
Inductive exn : Type :=
| ReferenceError (msg : string)
| TypeError (msg : string)
| SyntaxError (msg : string).

(** The results of [f] on the elements, in order, or the first exception. *)
Definition collect {A B} (f : A -> exn + B) : list A -> exn + list B :=
  fix go (l : list A) : exn + list B :=
    match l with
    | [] => inr []
    | x :: rest =>
        match f x with
        | inl e => inl e
        | inr y =>
            match go rest with
            | inl e => inl e
            | inr ys => inr (y :: ys)
            end
        end
    end.

Section Conversions.

(** [Date.parse]: the time value of a date text, NaN when the text is not
    recognised.  It depends on the local time zone and, beyond the ISO
    format, on the implementation. *)
Variable Date_parse : string -> jsnum.

Fixpoint join (sep : string) (parts : list string) : string :=
  match parts with
  | [] => EmptyString
  | [p] => p
  | p :: rest => p ++ sep ++ join sep rest
  end.

(** ToString.  An array is its elements joined by commas, [null] and
    [undefined] elements being empty.  An object made by [JSON.parse]
    inherits [toString] and [valueOf] from [Object.prototype] unless it
    has a member of that name, and a member is never a function: with a
    member [toString] no method gives a primitive and the conversion
    throws a TypeError, without one the text is [[object Object]].  The
    inherited [valueOf] returns the object itself and a member [valueOf]
    is not callable, so the order in which the two are tried does not
    matter: ToPrimitive followed by ToString gives the same under every
    hint. *)
Fixpoint ToString (v : value) : exn + string :=
  match v with
  | VUndefined => inr "undefined"
  | VNull => inr "null"
  | VBool true => inr "true"
  | VBool false => inr "false"
  | VNum n => inr (Number_toString n)
  | VStr s => inr s
  | VArr elems =>
      match collect (fun e =>
                       match e with
                       | VUndefined | VNull => inr EmptyString
                       | _ => ToString e
                       end) elems with
      | inl e => inl e
      | inr parts => inr (join "," parts)
      end
  | VObj members =>
      match lookup_member "toString" members with
      | Some _ => inl (TypeError "Cannot convert object to primitive value")
      | None => inr "[object Object]"
      end
  end.

(** [new Date(v)]: a text is parsed, anything else goes through ToNumber;
    an array or an object is first made a primitive, its text, which
    throws when [ToString] does. *)
Definition new_Date (v : value) : exn + Date :=
  let date (tv : jsnum) : exn + Date := inr (MkDate (TimeClip tv)) in
  match v with
  | VUndefined => date NaN
  | VNull => date (of_Z 0)
  | VBool b => date (if b then of_Z 1 else of_Z 0)
  | VNum n => date n
  | VStr s => date (Date_parse s)
  | VArr _ | VObj _ =>
      match ToString v with
      | inl e => inl e
      | inr s => date (Date_parse s)
      end
  end.

End Conversions.

(** ** Data of the program and of the services it calls *)

(** The error object an AWS client hands to a callback. *)
Module AWSError.

Record t : Type := { message : string; stack : string }.

End AWSError.

Module S3.

(** [{ Bucket, Key }] *)
Record GetObjectRequest : Type := { Bucket : value; Key : value }.

(** The part of GetObjectOutput the program reads: [Body], by its text
    ([data.Body.toString()]). *)
Record GetObjectOutput : Type := { Body : string }.

End S3.

Module SES.

Record Content : Type := { Data : value; Charset : string }.

Record Body : Type := { Text : Content }.

Record Message : Type := { Subject : Content; Body_ : Body }.

Record Destination : Type := { ToAddresses : value }.

(** The object [createSendEmailParams] returns. *)
Record SendEmailRequest : Type := {
  Destination_ : Destination;
  Message_ : Message;
  Source : value;
  ReplyToAddresses : list value
}.

End SES.

(** [{ message }], the object [createResult] builds. *)
Record result : Type := { message : string }.

(** [{ stale, result }]; [result] is absent until it is assigned. *)
Record fileDateResult : Type := {
  stale : bool;
  result_ : option result
}.

(** [o.stale = b] and [o.result = r] *)
Definition set_stale (b : bool) (o : fileDateResult) : fileDateResult :=
  {| stale := b; result_ := result_ o |}.

Definition set_result (r : result) (o : fileDateResult) : fileDateResult :=
  {| stale := stale o; result_ := Some r |}.

(** The Lambda context object; the program only calls its [done]. *)
Inductive Context : Type := LambdaContext.

(** What is passed to [console.log] and [console.error]: [undefined], a
    text, an error object, the array of the arguments of a call, or the
    text ['Event: ' + JSON.stringify(event)], kept by its [event]. *)
Inductive logged : Type :=
| LUndefined
| LText (s : string)
| LError (e : AWSError.t)
| LArguments (args : list value)
| LEvent (event : value).

(** The observable actions of an invocation, in order. *)
Inductive event : Type :=
| console_log (line : logged)
| console_error (line error : logged)
| s3_getObject (params : S3.GetObjectRequest)
| ses_sendEmail (params : SES.SendEmailRequest)
| context_done (error : value) (res : result).

(** ** Effects: a trace of events and an exception or a value *)

Definition M (A : Type) : Type := (list event * (exn + A))%type.

Definition ret {A} (a : A) : M A := ([], inr a).

Definition bind {A B} (m : M A) (f : A -> M B) : M B :=
  match m with
  | (t, inl e) => (t, inl e)
  | (t, inr a) => let '(t', r) := f a in (app t t', r)
  end.

Definition emit (e : event) : M unit := ([e], inr tt).

Definition throw {A} (e : exn) : M A := ([], inl e).

(** A conversion of the language inside the program: no event, its value
    or its exception. *)
Definition lift {A} (r : exn + A) : M A := ([], r).

(** [try { m } catch (e) { h e }] *)
Definition try_catch {A} (m : M A) (h : exn -> M A) : M A :=
  match m with
  | (t, inl e) => let '(t', r) := h e in (app t t', r)
  | (t, inr a) => (t, inr a)
  end.

Notation "x <- m ;; k" := (bind m (fun x => k))
  (at level 20, m at level 99, k at level 200, only parsing).
Notation "m ;; k" := (bind m (fun _ => k))
  (at level 100, k at level 200, right associativity, only parsing).

Definition trace {A} (m : M A) : list event := fst m.
Definition outcome {A} (m : M A) : exn + A := snd m.

(** [array.every(f)]: stops at the first element [f] rejects. *)
Fixpoint every {A} (f : A -> M bool) (l : list A) : M bool :=
  match l with
  | [] => ret true
  | x :: rest => b <- f x ;; if b then every f rest else ret false
  end.

(** ** The world of one invocation *)

Record world : Type := {
  (** [process.env] *)
  env : gmap string string;
  (** the clock read by [new Date()], in milliseconds *)
  now : Z;
  (** what [s3.getObject] passes to its callback *)
  fetched : AWSError.t + S3.GetObjectOutput;
  (** the error [ses.sendEmail] passes to its callback, if any *)
  sent : option AWSError.t
}.

(** ** Scope *)

(** The names bound at module level: the four constants of the file and
    what Node provides to every module, then the globals the file uses.
    The methods of [spec] are properties of that object, not bindings. *)
Definition module_bindings : list string :=
  ["aws"; "s3"; "ses"; "spec";
   "exports"; "require"; "module"; "__filename"; "__dirname"].

Definition global_bindings : list string :=
  ["process"; "console"; "JSON"; "Math"; "Date"; "Array"; "parseFloat";
   "undefined"].

Definition bound (locals : list string) (name : string) : bool :=
  existsb (String.eqb name) (app locals (app module_bindings global_bindings)).

(** The call [name()] of a bare identifier: the name is resolved first and
    a ReferenceError is thrown when nothing binds it; [callee] is what
    runs otherwise. *)
Definition call_identifier {A} (locals : list string) (name : string)
    (callee : M A) : M A :=
  if bound locals name then callee
  else throw (ReferenceError (name ++ " is not defined")).

(** ** The functions of [prebidCurrencyRatesFileAlerter.js] *)

Section Program.

Variable Date_parse : string -> jsnum.

Variable w : world.

Local Abbreviation new_Date := (new_Date Date_parse).

(** [process.env.NAME] *)
Definition process_env (name : string) : value :=
  match env w !! name with
  | Some s => VStr s
  | None => VUndefined
  end.

(** [console.log(line)] and [console.error(line, error)] *)
Definition console_log_ (line : logged) : M unit := emit (console_log line).
Definition console_error_ (line error : logged) : M unit :=
  emit (console_error line error).

(** [getDebug] *)
Definition getDebug : bool :=
  match process_env "DEBUG" with
  | VUndefined => true
  | VStr s => String.eqb s "1"
  | _ => false
  end.

(** [getBucket] *)
Definition getBucket : value :=
  js_or (process_env "S3_BUCKET") (VStr "currency.prebid.org").

(** [getFilename] *)
Definition getFilename : value :=
  js_or (process_env "S3_FILENAME") (VStr "latest.json").

(** [getAlertFrom] *)
Definition getAlertFrom : value :=
  js_or (process_env "ALERT_FROM") (VStr "alerts@prebid.org").

(** [getAlertTo] *)
Definition getAlertTo : value :=
  js_or (process_env "ALERT_TO") (VStr "alerts@prebid.org").

(** [getStaleOlderThanDays] *)
Definition getStaleOlderThanDays : jsnum :=
  let parsed := parseFloat (env w !! "STALE_OLDER_THAN_DAYS") in
  if Number.truthy parsed then parsed else of_Z 2.

Definition default_subject : string :=
  "ALERT: Prebid Currency Rates File Monitor".

(** [getAlertSubject] *)
Definition getAlertSubject : value :=
  js_or (VNum (parseFloat (env w !! "ALERT_SUBJECT"))) (VStr default_subject).

(** [createResult] *)
Definition createResult (message : string) : result :=
  {| message := message |}.

(** [log] *)
Definition log (line : logged) : M unit :=
  if getDebug then console_log_ line else ret tt.

(** [logError]; a missing second argument is [undefined]. *)
Definition logError (line error : logged) : M unit :=
  console_error_ line error.

(** [createS3GetObjectParams] *)
Definition createS3GetObjectParams (bucket key : value)
  : M (option S3.GetObjectRequest) :=
  if (negb (truthy bucket) || negb (truthy key))%bool then
    logError (LText "Error: missing argument for createS3GetObjectParams")
             (LArguments [bucket; key]) ;;
    ret None
  else ret (Some {| S3.Bucket := bucket; S3.Key := key |}).

(** [parseJson] *)
Definition parseJson (data : string) : M value :=
  try_catch
    (match Json.parse data with
     | Some v => ret v
     | None => throw (SyntaxError "Unexpected token in JSON")
     end)
    (fun _ =>
       logError (LText "Error: malformed json:") (LText data) ;;
       ret VUndefined).

(** [new Date()] *)
Definition new_Date_now : Date := date_of_ms (now w).

Definition stale_prefix : string :=
  "The Prebid currency rates conversion data has a stale timestamp of ".

Definition stale_suffix : string :=
  ". Please check the generator logs for failures: " ++
  "https://console.aws.amazon.com/cloudwatch/home?region=us-east-1#logStream:group=/aws/lambda/prebidCurrencyRatesFileGenerator;streamFilter=typeLogStreamPrefix".

Definition fresh_prefix : string :=
  "The Prebid currency rates conversion data has a timestamp of ".

Definition fresh_suffix : string := ", found not to be stale.".

(** [getFileStaleResult].  [new Date(dataAsOf)] and the concatenations
    with [dataAsOf] convert it, and throw when it cannot be converted. *)
Definition getFileStaleResult (dataAsOf : value) (staleOlderThanDays : jsnum)
  : M fileDateResult :=
  let fileDateResult := {| stale := false; result_ := None |} in
  first <- lift (new_Date dataAsOf) ;;
  let daysSinceCurrencyFile := daysDifference first new_Date_now in
  if js_gt daysSinceCurrencyFile staleOlderThanDays then
    let fileDateResult := set_stale true fileDateResult in
    text <- lift (ToString dataAsOf) ;;
    ret (set_result (createResult (stale_prefix ++ text ++ stale_suffix))
                    fileDateResult)
  else
    text <- lift (ToString dataAsOf) ;;
    ret (set_result (createResult (fresh_prefix ++ text ++ fresh_suffix))
                    fileDateResult).

(** [context.done(error, result)] *)
Definition context_done_ (error : value) (res : result) : M unit :=
  emit (context_done error res).

(** The callback [sendEmailHandler] returns. *)
Definition sendEmailCallback (res : result)
    (err : option AWSError.t) : M unit :=
  match err with
  | Some e => logError (LError e) (LText (AWSError.stack e))
  | None => log (LText ("Alert '" ++ message res ++ "' sent. "))
  end ;;
  context_done_ VNull res.

(** [sendEmailHandler] *)
Definition sendEmailHandler (res : option result) (context : option Context)
  : M (option (option AWSError.t -> M unit)) :=
  match res with
  | None =>
      logError (LText ("Error: missing " ++ dquote ++ "result" ++ dquote
                       ++ " argument for sendEmailHandler")) LUndefined ;;
      ret None
  | Some r =>
      match context with
      | None =>
          logError (LText ("Error: missing " ++ dquote ++ "context" ++ dquote
                           ++ " argument for sendEmailHandler")) LUndefined ;;
          ret None
      | Some _ => ret (Some (sendEmailCallback r))
      end
  end.

(** [config[name]] *)
Definition prop (config : gmap string value) (name : string) : value :=
  default VUndefined (config !! name).

(** [createSendEmailParams] *)
Definition createSendEmailParams (config : gmap string value)
  : M (option SES.SendEmailRequest) :=
  complete <-
    every (fun configProp =>
             if truthy (prop config configProp) then ret true
             else
               logError
                 (LText ("Error: missing required argument for createSendEmailParams:"
                         ++ configProp)) LUndefined ;;
               ret false)
          ["alertTo"; "alertSubject"; "alertFrom"; "alertReplyTo"; "message"] ;;
  if negb complete then ret None
  else
    ret (Some
      {| SES.Destination_ := {| SES.ToAddresses := prop config "alertTo" |};
         SES.Message_ :=
           {| SES.Subject :=
                {| SES.Data := prop config "alertSubject";
                   SES.Charset := "UTF-8" |};
              SES.Body_ :=
                {| SES.Text :=
                     {| SES.Data := prop config "message";
                        SES.Charset := "UTF-8" |} |} |};
         SES.Source := prop config "alertFrom";
         SES.ReplyToAddresses := [prop config "alertReplyTo"] |}).

(** [ses.sendEmail(params, callback)]: the request goes out and the
    client later calls [callback] once with the outcome of the send.
    Nothing follows the call in the program, so running the callback in
    place gives the events in their order. *)
Definition ses_sendEmail_ (params : SES.SendEmailRequest)
    (callback : option AWSError.t -> M unit) : M unit :=
  emit (ses_sendEmail params) ;;
  callback (sent w).

(** [sendAlert] *)
Definition sendAlert (res : option result) (context : option Context)
  : M unit :=
  match res with
  | None =>
      logError (LText "Error: result argument is undefined for sendAlert")
               LUndefined
  | Some r =>
      sendEmailParams <-
        createSendEmailParams
          (list_to_map
             [("alertTo", getAlertTo);
              ("alertSubject", getAlertSubject);
              ("alertFrom", getAlertFrom);
              ("alertReplyTo", getAlertFrom);
              ("message", VStr (message r))]) ;;
      match sendEmailParams with
      | None => logError (LText "Error missing argument for sendAlert") LUndefined
      | Some params =>
          sendEmailCallback <- sendEmailHandler res context ;;
          match sendEmailCallback with
          | None =>
              logError (LText "Error missing arguments for sendAlert") LUndefined
          | Some callback => ses_sendEmail_ params callback
          end
      end
  end.

(** [currencyRates.dataAsOf] on a truthy value: the last member of that
    name of an object, [undefined] on anything else. *)
Definition get_dataAsOf (currencyRates : value) : M value :=
  match currencyRates with
  | VUndefined | VNull =>
      throw (TypeError "Cannot read properties of undefined (reading 'dataAsOf')")
  | VObj members => ret (default VUndefined (lookup_member "dataAsOf" members))
  | _ => ret VUndefined
  end.

(** [currencyRatesLoadSuccess].  The threshold is read by the bare call
    [getStaleOlderThanDays()], after the first argument is evaluated. *)
Definition currencyRatesLoadSuccess (data : S3.GetObjectOutput)
    (context : option Context) : M unit :=
  currencyRates <- parseJson (S3.Body data) ;;
  if negb (truthy currencyRates) then ret tt
  else
    dataAsOf <- get_dataAsOf currencyRates ;;
    staleOlderThanDays <-
      call_identifier ["data"; "context"; "currencyRates"; "fileResult"]
        "getStaleOlderThanDays" (ret getStaleOlderThanDays) ;;
    fileResult <- getFileStaleResult dataAsOf staleOlderThanDays ;;
    match result_ fileResult with
    | None =>
        throw (TypeError "Cannot read properties of undefined (reading 'message')")
    | Some r =>
        if stale fileResult then
          logError (LText (message r)) LUndefined ;;
          sendAlert (Some r) context
        else
          log (LText (message r)) ;;
          match context with
          | Some _ => context_done_ VNull r
          | None =>
              throw (TypeError "Cannot read properties of undefined (reading 'done')")
          end
    end.

(** [currencyRatesLoadError] *)
Definition currencyRatesLoadError (err : AWSError.t)
    (context : option Context) : M unit :=
  logError (LError err) (LText (AWSError.stack err)) ;;
  let res :=
    createResult ("Error reading currency rates file from S3: "
                  ++ AWSError.message err) in
  sendAlert (Some res) context.

(** The callback [s3GetObjectHandler] returns. *)
Definition s3GetObjectCallback (context : option Context)
    (response : AWSError.t + S3.GetObjectOutput) : M unit :=
  match response with
  | inr data => currencyRatesLoadSuccess data context
  | inl err => currencyRatesLoadError err context
  end.

(** [s3GetObjectHandler] *)
Definition s3GetObjectHandler (context : option Context)
  : M (option (AWSError.t + S3.GetObjectOutput -> M unit)) :=
  match context with
  | None =>
      logError (LText "Error: invalid arguments for s3GetObjectHandler")
               LUndefined ;;
      ret None
  | Some _ => ret (Some (s3GetObjectCallback context))
  end.

(** [s3.getObject(params, callback)]: the request goes out and the client
    later calls [callback] once, with an error or with the object. *)
Definition s3_getObject_ (params : S3.GetObjectRequest)
    (callback : AWSError.t + S3.GetObjectOutput -> M unit) : M unit :=
  emit (s3_getObject params) ;;
  callback (fetched w).

(** [exports.handler] *)
Definition handler (event : value) (context : option Context) : M unit :=
  log (LEvent event) ;;
  objectRequestParams <- createS3GetObjectParams getBucket getFilename ;;
  match objectRequestParams with
  | None => ret tt
  | Some params =>
      s3GetObjectHandler_ <- s3GetObjectHandler context ;;
      match s3GetObjectHandler_ with
      | None => ret tt
      | Some callback => s3_getObject_ params callback
      end
  end.

End Program.

(** ** Observations on a trace *)

(** The results handed to [context.done], in order. *)
Fixpoint done_calls (t : list event) : list result :=
  match t with
  | [] => []
  | context_done _ r :: rest => r :: done_calls rest
  | _ :: rest => done_calls rest
  end.

(** The requests handed to [ses.sendEmail], in order. *)
Fixpoint alerts (t : list event) : list SES.SendEmailRequest :=
  match t with
  | [] => []
  | ses_sendEmail p :: rest => p :: alerts rest
  | _ :: rest => alerts rest
  end.

(** The calls of [console.error], in order. *)
Fixpoint errors_logged (t : list event) : list (logged * logged) :=
  match t with
  | [] => []
  | console_error l e :: rest => (l, e) :: errors_logged rest
  | _ :: rest => errors_logged rest
  end.

(** The requests handed to [s3.getObject], in order. *)
Fixpoint fetches (t : list event) : list S3.GetObjectRequest :=
  match t with
  | [] => []
  | s3_getObject p :: rest => p :: fetches rest
  | _ :: rest => fetches rest
  end.

(** The trace without its [console.log] lines. *)
Fixpoint without_logs (t : list event) : list event :=
  match t with
  | [] => []
  | console_log _ :: rest => without_logs rest
  | e :: rest => e :: without_logs rest
  end.

(** [w] with [process.env.DEBUG] set to [setting], or unset. *)
Definition with_DEBUG (setting : option string) (w : world) : world :=
  {| env := match setting with
            | Some s => <["DEBUG" := s]> (env w)
            | None => delete "DEBUG" (env w)
            end;
     now := now w;
     fetched := fetched w;
     sent := sent w |}.

(** [w] with the clock at [clock]. *)
Definition at_time (clock : Z) (w : world) : world :=
  {| env := env w; now := clock; fetched := fetched w; sent := sent w |}.

(** [needle] occurs in [s]. *)
Fixpoint contains (needle s : string) : bool :=
  (String.prefix needle s ||
   match s with
   | String _ rest => contains needle rest
   | EmptyString => false
   end)%bool.

(** The test [currencyRatesLoadSuccess] makes on the body: it parses and
    the value is truthy. *)
Definition parses_truthy (body : string) : bool :=
  match Json.parse body with
  | Some v => truthy v
  | None => false
  end.

(** The first of the required fields that [config] lacks. *)
Definition first_missing (config : gmap string value) : option string :=
  find (fun name => negb (truthy (prop config name)))
       ["alertTo"; "alertSubject"; "alertFrom"; "alertReplyTo"; "message"].

(** ** Rounding, as the specification words it *)

(** Nearest integer, ties towards +Infinity: what [Math.round] does. *)
Definition round_half_up (q : Q) : Z := Qfloor (q + (1 # 2)).

(** Nearest integer, ties away from zero: the rule the specification
    documents for the day difference. *)
Definition round_half_away_from_zero (q : Q) : Z :=
  if Qle_bool 0 q then Qfloor (q + (1 # 2))
  else Qceiling (q - (1 # 2)).

(** The day difference of the specification, on time values: the
    millisecond difference over 86,400,000, rounded half away from zero. *)
Definition spec_daysDifference (first second : Z) : Z :=
  round_half_away_from_zero (inject_Z (second - first) / inject_Z 86400000).

(** The request [sendAlert] hands to SES for the result [r]. *)
Definition alert_request (w : world) (r : result) : SES.SendEmailRequest :=
  {| SES.Destination_ := {| SES.ToAddresses := getAlertTo w |};
     SES.Message_ :=
       {| SES.Subject :=
            {| SES.Data := getAlertSubject w; SES.Charset := "UTF-8" |};
          SES.Body_ :=
            {| SES.Text :=
                 {| SES.Data := VStr (message r); SES.Charset := "UTF-8" |} |} |};
     SES.Source := getAlertFrom w;
     SES.ReplyToAddresses := [getAlertFrom w] |}.

(** ** A host and inputs for closed examples *)

Definition two_digits (a b : ascii) : option Z :=
  match digit_of a, digit_of b with
  | Some x, Some y => Some (Z.of_N (x * 10 + y))
  | _, _ => None
  end.

(** Days from the epoch to a day of the Gregorian calendar. *)
Definition days_from_civil (y m d : Z) : Z :=
  let y' := if (m <=? 2)%Z then (y - 1)%Z else y in
  let era := (y' / 400)%Z in
  let yoe := (y' - era * 400)%Z in
  let doy := ((153 * (if (m <=? 2)%Z then m + 9 else m - 3) + 2) / 5 + d - 1)%Z in
  let doe := (yoe * 365 + yoe / 4 - yoe / 100 + doy)%Z in
  (era * 146097 + doe - 719468)%Z.

(** Milliseconds into the day of [THH:mm:ss], [THH:mm:ss.sss], with or
    without a final [Z]; nothing at all is midnight. *)
Definition read_time (s : string) : option Z :=
  let finish (ms : Z) (rest : string) :=
    if (String.eqb rest EmptyString || String.eqb rest "Z")%bool
    then Some ms else None in
  match s with
  | EmptyString => Some 0%Z
  | String "T" (String h1 (String h2 (String ":" (String m1 (String m2
      (String ":" (String s1 (String s2 rest)))))))) =>
      match two_digits h1 h2, two_digits m1 m2, two_digits s1 s2 with
      | Some h, Some m, Some sec =>
          if ((h <? 24) && (m <? 60) && (sec <? 60))%Z then
            let ms := (((h * 60 + m) * 60 + sec) * 1000)%Z in
            match rest with
            | String "." (String f1 (String f2 (String f3 rest'))) =>
                match digit_of f1, two_digits f2 f3 with
                | Some a, Some b => finish (ms + Z.of_N a * 100 + b)%Z rest'
                | _, _ => None
                end
            | _ => finish ms rest
            end
          else None
      | _, _, _ => None
      end
  | _ => None
  end.

(** A [Date.parse] for a host whose local time is UTC and which
    recognises the ISO format only, in the forms [YYYY-MM-DD] and
    [YYYY-MM-DDTHH:mm:ss] with optional milliseconds and [Z]. *)
Definition Date_parse_utc (s : string) : jsnum :=
  match s with
  | String y1 (String y2 (String y3 (String y4 (String "-" (String m1
      (String m2 (String "-" (String d1 (String d2 rest))))))))) =>
      match two_digits y1 y2, two_digits y3 y4, two_digits m1 m2,
            two_digits d1 d2, read_time rest with
      | Some c, Some y, Some m, Some d, Some t =>
          if ((1 <=? m) && (m <=? 12) && (1 <=? d) && (d <=? 31))%Z
          then of_Z (days_from_civil (c * 100 + y) m d * 86400000 + t)
          else NaN
      | _, _, _, _, _ => NaN
      end
  | _ => NaN
  end.

Definition quoted (s : string) : string := dquote ++ s ++ dquote.

(** The text of an object with the single member [dataAsOf]. *)
Definition body_with (dataAsOf : string) : string :=
  "{" ++ quoted "dataAsOf" ++ ":" ++ quoted dataAsOf ++ "}".

Definition access_denied : AWSError.t :=
  {| AWSError.message := "access denied";
     AWSError.stack := "AccessDenied: access denied" |}.

(** Noon UTC on 3 May 2024. *)
Definition noon_3_may_2024 : Z := 1714737600000.

(** A run with the given environment and fetched text, in which the send
    succeeds. *)
Definition run_with (vars : list (string * string)) (body : string) : world :=
  {| env := list_to_map vars;
     now := noon_3_may_2024;
     fetched := inr {| S3.Body := body |};
     sent := None |}.

(** A run in which the fetch is denied and the send fails as well. *)
Definition fetch_denied : world :=
  {| env := ∅;
     now := noon_3_may_2024;
     fetched := inl access_denied;
     sent := Some access_denied |}.

(** * Properties *)

(** ** The parsers *)

Module ParsingFacts.
Import Json.

Local Abbreviation len := String.length.

Lemma skip_ws_length (s : string) : (len (skip_ws s) <= len s)%nat.
Proof.
  induction s as [|c s IH]; [reflexivity|].
  cbn [skip_ws]. destruct (is_ws c); cbn [String.length]; lia.
Qed.

Lemma drop_chars_length (n : nat) (s : string) :
  len (drop_chars n s) = (len s - n)%nat.
Proof.
  revert s. induction n as [|n IH]; intros [|c s]; cbn [drop_chars String.length];
    try lia. apply IH.
Qed.

Lemma prefix_length (p s : string) :
  String.prefix p s = true -> (len p <= len s)%nat.
Proof.
  revert s. induction p as [|c p IH]; intros [|d s]; cbn; try lia; try discriminate.
  destruct (Ascii.ascii_dec c d); [|discriminate].
  intros H. apply IH in H. lia.
Qed.

Lemma literal_consumes (word : string) (v : value) :
  word <> EmptyString -> consumes (literal word v).
Proof.
  intros Hw s a rest. unfold literal, is_prefix_of, drop_prefix.
  destruct (String.prefix word s) eqn:E; [|discriminate].
  intros [= _ <-]. apply prefix_length in E. rewrite drop_chars_length.
  destruct word; [contradiction|]. cbn [String.length] in *. lia.
Qed.

Lemma read_digits_length (s : string) :
  forall acc count n count' rest,
    read_digits acc count s = (n, count', rest) ->
    (len rest + count' = len s + count)%nat.
Proof.
  induction s as [|c s IH]; intros acc count n count' rest; cbn [read_digits].
  - intros [= _ <- <-]. reflexivity.
  - destruct (digit_of c).
    + intros H. apply IH in H. cbn [String.length]. lia.
    + intros [= _ <- <-]. reflexivity.
Qed.

Lemma read_exponent_consumes : consumes read_exponent.
Proof.
  intros [|c s] x rest; cbn [read_exponent]; [discriminate|].
  destruct (Ascii.eqb c "e" || Ascii.eqb c "E")%bool; [|discriminate].
  set (p := match s with
            | String "-"%char r => (true, r)
            | String "+"%char r => (false, r)
            | _ => (false, s)
            end).
  assert (Hp : (len (snd p) <= len s)%nat).
  { unfold p. destruct s as [|d s]; [reflexivity|].
    destruct d as [[] [] [] [] [] [] [] []]; cbn [snd String.length]; lia. }
  destruct p as [negative rest1]. cbn [snd] in Hp.
  destruct (read_digits 0 0 rest1) as [[n count] rest2] eqn:E.
  apply read_digits_length in E.
  destruct count; [discriminate|]. intros [= _ <-]. cbn [String.length]. lia.
Qed.

Lemma cons_item_Some (i : item) (r : option (list item * string)) items rest :
  cons_item i r = Some (items, rest) ->
  exists items', r = Some (items', rest).
Proof.
  destruct r as [[items' rest']|]; cbn [cons_item]; [|discriminate].
  intros [= _ <-]. now exists items'.
Qed.

Lemma read_string_consumes : consumes read_string.
Proof.
  intros s. remember (len s) as n eqn:Hn.
  assert (Hle : (len s <= n)%nat) by lia. clear Hn. revert s Hle.
  induction n as [|n IH]; intros [|c s] Hle items rest; cbn [read_string];
    try discriminate; cbn [String.length] in Hle; [lia|].
  destruct (is_quote c).
  { intros [= _ <-]. cbn [String.length]. lia. }
  destruct (is_char c "\").
  - destruct s as [|e s]; [discriminate|]. cbn [String.length] in Hle.
    destruct (is_char e "u").
    + destruct s as [|a [|b [|c' [|d s]]]]; try discriminate.
      cbn [String.length] in Hle.
      destruct (hex4 a b c' d); [|discriminate].
      intros H. apply cons_item_Some in H as [items' H].
      apply IH in H; [|lia]. cbn [String.length]. lia.
    + destruct (simple_escape e); [|discriminate].
      intros H. apply cons_item_Some in H as [items' H].
      apply IH in H; [|lia]. cbn [String.length]. lia.
  - destruct (N_of_ascii c <? 32)%N; [discriminate|].
    intros H. apply cons_item_Some in H as [items' H].
    apply IH in H; [|lia]. cbn [String.length]. lia.
Qed.

Lemma read_number_consumes : consumes read_number.
Proof.
  intros s n rest. unfold read_number.
  set (p := match s with
            | String c r => if is_char c "-" then (true, r) else (false, s)
            | EmptyString => (false, s)
            end).
  assert (Hp : (len (snd p) <= len s)%nat).
  { unfold p. destruct s as [|c s]; [reflexivity|].
    destruct (is_char c "-"); cbn [snd String.length]; lia. }
  destruct p as [negative s1]. cbn [snd] in Hp.
  set (int := match s1 with
              | String c r =>
                  if is_char c "0" then Some (0%N, r)
                  else let '(i, count, r') := read_digits 0 0 s1 in
                       match count with O => None | S _ => Some (i, r') end
              | EmptyString => None
              end).
  assert (Hint : forall i r1, int = Some (i, r1) -> (len r1 < len s1)%nat).
  { unfold int. destruct s1 as [|c r]; [discriminate|]. intros i r1.
    destruct (is_char c "0").
    - intros [= _ <-]. cbn [String.length]. lia.
    - destruct (read_digits 0 0 (String c r)) as [[i' count] r'] eqn:E.
      apply read_digits_length in E. destruct count; [discriminate|].
      intros [= _ <-]. lia. }
  destruct int as [[i r1]|]; [|discriminate].
  specialize (Hint i r1 eq_refl).
  set (frac := match r1 with
               | String c r =>
                   if is_char c "." then
                     let '(m, count, r2) := read_digits i 0 r in
                     match count with O => None | S _ => Some (m, count, r2) end
                   else Some (i, O, r1)
               | EmptyString => Some (i, O, r1)
               end).
  assert (Hfrac : forall m fc r2, frac = Some (m, fc, r2) -> (len r2 <= len r1)%nat).
  { unfold frac. intros m fc r2. destruct r1 as [|c r]; [now intros [= _ _ <-]|].
    destruct (is_char c ".").
    - destruct (read_digits i 0 r) as [[m' count] r2'] eqn:E.
      apply read_digits_length in E. destruct count; [discriminate|].
      intros [= _ _ <-]. cbn [String.length]. lia.
    - now intros [= _ _ <-]. }
  destruct frac as [[[m fc] r2]|]; [|discriminate].
  specialize (Hfrac m fc r2 eq_refl).
  set (exp := match r2 with
              | String c _ =>
                  if (is_char c "e" || is_char c "E")%bool
                  then read_exponent r2 else Some (0%Z, r2)
              | EmptyString => Some (0%Z, r2)
              end).
  assert (Hexp : forall x r3, exp = Some (x, r3) -> (len r3 <= len r2)%nat).
  { unfold exp. intros x r3. destruct r2 as [|c r]; [now intros [= _ <-]|].
    destruct (is_char c "e" || is_char c "E")%bool.
    - intros H. apply read_exponent_consumes in H. lia.
    - now intros [= _ <-]. }
  destruct exp as [[x r3]|]; [|discriminate].
  specialize (Hexp x r3 eq_refl). intros [= _ <-]. lia.
Qed.

Lemma value_step_consumes el mem :
  consumes el -> consumes mem -> consumes (value_step el mem).
Proof.
  intros Hel Hmem s v rest. unfold value_step.
  pose proof (skip_ws_length s) as Hs.
  destruct (skip_ws s) as [|c s'] eqn:E; [discriminate|].
  cbn [String.length] in Hs.
  destruct (is_char c "n").
  { intros H. apply literal_consumes in H; [|discriminate]. cbn [String.length] in H. lia. }
  destruct (is_char c "t").
  { intros H. apply literal_consumes in H; [|discriminate]. cbn [String.length] in H. lia. }
  destruct (is_char c "f").
  { intros H. apply literal_consumes in H; [|discriminate]. cbn [String.length] in H. lia. }
  destruct (is_char c "[").
  { pose proof (skip_ws_length s') as Hs'.
    destruct (skip_ws s') as [|c' r'] eqn:E'; [discriminate|].
    cbn [String.length] in Hs'.
    destruct (is_char c' "]").
    - intros [= _ <-]. lia.
    - destruct (el s') as [[vs r'']|] eqn:Ee; [|discriminate].
      apply Hel in Ee. intros [= _ <-]. lia. }
  destruct (is_char c "{").
  { pose proof (skip_ws_length s') as Hs'.
    destruct (skip_ws s') as [|c' r'] eqn:E'; [discriminate|].
    cbn [String.length] in Hs'.
    destruct (is_char c' "}").
    - intros [= _ <-]. lia.
    - destruct (mem s') as [[ms r'']|] eqn:Em; [|discriminate].
      apply Hmem in Em. intros [= _ <-]. lia. }
  destruct (is_quote c).
  { destruct (read_string s') as [[items r']|] eqn:Er; [|discriminate].
    apply read_string_consumes in Er. intros [= _ <-]. lia. }
  destruct (read_number (String c s')) as [[n r']|] eqn:En; [|discriminate].
  apply read_number_consumes in En. cbn [String.length] in En.
  intros [= _ <-]. lia.
Qed.

Lemma elements_step_consumes v el :
  consumes v -> consumes el -> consumes (elements_step v el).
Proof.
  intros Hv Hel s vs rest. unfold elements_step.
  destruct (v s) as [[x r]|] eqn:Ev; [|discriminate]. apply Hv in Ev.
  pose proof (skip_ws_length r) as Hr.
  destruct (skip_ws r) as [|c r']; [discriminate|]. cbn [String.length] in Hr.
  destruct (is_char c ",").
  - destruct (el r') as [[vs' r'']|] eqn:Ee; [|discriminate].
    apply Hel in Ee. intros [= _ <-]. lia.
  - destruct (is_char c "]"); [|discriminate]. intros [= _ <-]. lia.
Qed.

Lemma members_step_consumes v mem :
  consumes v -> consumes mem -> consumes (members_step v mem).
Proof.
  intros Hv Hmem s ms rest. unfold members_step.
  pose proof (skip_ws_length s) as Hs.
  destruct (skip_ws s) as [|c r]; [discriminate|]. cbn [String.length] in Hs.
  destruct (is_quote c); [|discriminate].
  destruct (read_string r) as [[items r1]|] eqn:Er; [|discriminate].
  apply read_string_consumes in Er.
  pose proof (skip_ws_length r1) as H1.
  destruct (skip_ws r1) as [|c1 r2]; [discriminate|]. cbn [String.length] in H1.
  destruct (is_char c1 ":"); [|discriminate].
  destruct (v r2) as [[x r3]|] eqn:Ev; [|discriminate]. apply Hv in Ev.
  pose proof (skip_ws_length r3) as H3.
  destruct (skip_ws r3) as [|c3 r4]; [discriminate|]. cbn [String.length] in H3.
  destruct (is_char c3 ",").
  - destruct (mem r4) as [[ms' r5]|] eqn:Em; [|discriminate].
    apply Hmem in Em. intros [= _ <-]. lia.
  - destruct (is_char c3 "}"); [|discriminate]. intros [= _ <-]. lia.
Qed.

Lemma parse_consumes (fuel : nat) :
  consumes (parse_value fuel) /\ consumes (parse_elements fuel) /\
  consumes (parse_members fuel).
Proof.
  induction fuel as [|fuel (IHv & IHe & IHm)].
  - repeat split; intros s a rest; discriminate.
  - repeat split.
    + now apply value_step_consumes.
    + now apply elements_step_consumes.
    + now apply members_step_consumes.
Qed.

(** The steps only call their parsers on shorter texts. *)
Lemma value_step_ext el el' mem mem' (s : string) :
  (forall r, (len r < len s)%nat -> el r = el' r) ->
  (forall r, (len r < len s)%nat -> mem r = mem' r) ->
  value_step el mem s = value_step el' mem' s.
Proof.
  intros Hel Hmem. unfold value_step.
  pose proof (skip_ws_length s) as Hs.
  destruct (skip_ws s) as [|c s']; [reflexivity|]. cbn [String.length] in Hs.
  rewrite (Hel s'), (Hmem s') by lia. reflexivity.
Qed.

Lemma elements_step_ext v v' el el' (s : string) :
  consumes v ->
  v s = v' s ->
  (forall r, (len r + 2 <= len s)%nat -> el r = el' r) ->
  elements_step v el s = elements_step v' el' s.
Proof.
  intros Hc Hv Hel. unfold elements_step. rewrite <- Hv.
  destruct (v s) as [[x r]|] eqn:Ev; [|reflexivity]. apply Hc in Ev.
  pose proof (skip_ws_length r) as Hr.
  destruct (skip_ws r) as [|c r']; [reflexivity|]. cbn [String.length] in Hr.
  rewrite (Hel r') by lia. reflexivity.
Qed.

Lemma members_step_ext v v' mem mem' (s : string) :
  consumes v ->
  (forall r, (len r < len s)%nat -> v r = v' r) ->
  (forall r, (len r + 2 <= len s)%nat -> mem r = mem' r) ->
  members_step v mem s = members_step v' mem' s.
Proof.
  intros Hc Hv Hmem. unfold members_step.
  pose proof (skip_ws_length s) as Hs.
  destruct (skip_ws s) as [|c r]; [reflexivity|]. cbn [String.length] in Hs.
  destruct (is_quote c); [|reflexivity].
  destruct (read_string r) as [[items r1]|] eqn:Er; [|reflexivity].
  apply read_string_consumes in Er.
  pose proof (skip_ws_length r1) as H1.
  destruct (skip_ws r1) as [|c1 r2]; [reflexivity|]. cbn [String.length] in H1.
  destruct (is_char c1 ":"); [|reflexivity].
  rewrite <- (Hv r2) by lia.
  destruct (v r2) as [[x r3]|] eqn:Ev; [|reflexivity]. apply Hc in Ev.
  pose proof (skip_ws_length r3) as H3.
  destruct (skip_ws r3) as [|c3 r4]; [reflexivity|]. cbn [String.length] in H3.
  rewrite (Hmem r4) by lia. reflexivity.
Qed.

(** With enough fuel for the length of the text the result no longer
    depends on the fuel. *)
Lemma parse_fuel_stable (f1 : nat) :
  forall f2 s,
    ((2 * len s + 1 <= f1)%nat -> (2 * len s + 1 <= f2)%nat ->
     parse_value f1 s = parse_value f2 s) /\
    ((2 * len s + 2 <= f1)%nat -> (2 * len s + 2 <= f2)%nat ->
     parse_elements f1 s = parse_elements f2 s) /\
    ((2 * len s + 2 <= f1)%nat -> (2 * len s + 2 <= f2)%nat ->
     parse_members f1 s = parse_members f2 s).
Proof.
  induction f1 as [|f1 IH]; intros f2 s.
  - repeat split; lia.
  - destruct f2 as [|f2]; [repeat split; lia|].
    destruct (parse_consumes f1) as (Cv & _ & _).
    repeat split; intros H1 H2; cbn [parse_value parse_elements parse_members].
    + apply value_step_ext; intros r Hr; apply IH; lia.
    + apply elements_step_ext; [assumption| |]; [|intros r Hr]; apply IH; lia.
    + apply members_step_ext; [assumption| |]; intros r Hr; apply IH; lia.
Qed.

(** More fuel than [Json.parse] gives changes nothing: a text is rejected
    for its syntax, never for lack of fuel. *)
Lemma parse_value_fuel (text : string) (fuel : nat) :
  (2 * len text + 2 <= fuel)%nat ->
  parse_value fuel text = parse_value (2 * len text + 2) text.
Proof. intros H. apply parse_fuel_stable; lia. Qed.

(** *** White space before a number *)

Lemma white_space_nonempty :
  forallb (fun w => negb (String.eqb w EmptyString)) white_space = true.
Proof. vm_compute. reflexivity. Qed.

Lemma leading_white_space_consumes (s w : string) :
  leading_white_space s = Some w ->
  (String.length (drop_prefix w s) < String.length s)%nat.
Proof.
  unfold leading_white_space.
  destruct (filter (fun w => is_prefix_of w s) white_space) as [|w' l] eqn:E;
    [discriminate|].
  intros [= ->].
  assert (Hin : w ∈ filter (fun w => is_prefix_of w s) white_space).
  { rewrite E. left. }
  apply list_elem_of_filter in Hin as [Hp Hw].
  assert (Hne : w <> EmptyString).
  { pose proof white_space_nonempty as H. rewrite forallb_forall in H.
    apply list_elem_of_In in Hw. specialize (H w Hw).
    destruct w; [discriminate|discriminate]. }
  unfold is_prefix_of in Hp. apply Is_true_true in Hp.
  apply prefix_length in Hp. unfold drop_prefix. rewrite drop_chars_length.
  destruct w; [contradiction|]. cbn [String.length] in *. lia.
Qed.

(** The length of the text is fuel enough for [trim_start]. *)
Lemma trim_start_fuel (f1 : nat) :
  forall f2 s,
    (String.length s <= f1)%nat -> (String.length s <= f2)%nat ->
    trim_start f1 s = trim_start f2 s.
Proof.
  induction f1 as [|f1 IH]; intros f2 s H1 H2.
  - destruct s; [|cbn [String.length] in H1; lia].
    destruct f2; reflexivity.
  - destruct f2 as [|f2].
    + destruct s; [reflexivity|cbn [String.length] in H2; lia].
    + cbn [trim_start].
      destruct (leading_white_space s) as [w|] eqn:E; [|reflexivity].
      apply leading_white_space_consumes in E. apply IH; lia.
Qed.

(** Known values of the parsers and of Number::toString. *)
Example parseFloat_values :
  parseFloat None = NaN /\
  parseFloat (Some "ALERT") = NaN /\
  parseFloat (Some "  42 alerts") = Fin (inject_Z 42) /\
  parseFloat (Some "-.5e1x") = Fin (inject_Z (-5)) /\
  parseFloat (Some "1e") = Fin (inject_Z 1) /\
  parseFloat (Some "-Infinity") = NInf /\
  parseFloat (Some ".") = NaN /\
  parseFloat (Some "1e-400") = Fin 0.
Proof. vm_compute. repeat split. Qed.

Example Json_parse_values :
  Json.parse "null" = Some VNull /\
  Json.parse " [1, true ,[] ] " = Some (VArr [VNum (Fin 1); VBool true; VArr []]) /\
  Json.parse (body_with "2024-05-02")
  = Some (VObj [("dataAsOf", VStr "2024-05-02")]) /\
  Json.parse "not json" = None /\
  Json.parse "[1,]" = None /\
  Json.parse "01" = None /\
  Json.parse "nullx" = None /\
  Json.parse EmptyString = None.
Proof. vm_compute. repeat split. Qed.

Example Number_toString_values :
  map (fun s => Number_toString (parseFloat (Some s)))
      ["0.1"; "100"; "1e21"; "1152921504606846976"; "5e-324"; "-2.5";
       "1e23"; "0.000001"; "1e-7"; "1514764800000"]
  = ["0.1"; "100"; "1e+21"; "1152921504606847000"; "5e-324"; "-2.5";
     "1e+23"; "0.000001"; "1e-7"; "1514764800000"].
Proof. vm_compute. reflexivity. Qed.

Example Date_parse_utc_values :
  Date_parse_utc "1970-01-01" = Fin (inject_Z 0) /\
  Date_parse_utc "2024-05-03T12:00:00.000Z" = Fin (inject_Z noon_3_may_2024) /\
  Date_parse_utc "May 3 2024" = NaN.
Proof. vm_compute. repeat split. Qed.

End ParsingFacts.

(** ** Rounding to a Number *)

Section NumberFacts.

Local Open Scope Q_scope.

Lemma inject_Z_minus (x y : Z) : inject_Z (x - y) = inject_Z x - inject_Z y.
Proof. unfold Z.sub, Qminus. now rewrite inject_Z_plus, inject_Z_opp. Qed.

Lemma rhe_comp (x y : Q) : x == y -> round_half_even x = round_half_even y.
Proof.
  intros H. unfold round_half_even. rewrite (Qfloor_comp x y H).
  assert (E : Qcompare (x - inject_Z (Qfloor y)) (1 # 2) = Qcompare (y - inject_Z (Qfloor y)) (1 # 2)).
  { now rewrite H. }
  now rewrite E.
Qed.

Lemma rhe_Z (n : Z) : round_half_even (inject_Z n) = n.
Proof.
  unfold round_half_even. rewrite Qfloor_Z.
  assert (E : Qcompare (inject_Z n - inject_Z n) (1 # 2) = Lt).
  { apply (proj1 (Qlt_alt _ _)). lra. }
  now rewrite E.
Qed.

Lemma rhe_floor (x : Q) :
  (Qfloor x <= round_half_even x <= Qfloor x + 1)%Z.
Proof.
  unfold round_half_even.
  destruct (Qcompare _ _); [destruct (Z.even _)| |]; lia.
Qed.

Lemma rhe_ge (x : Q) (M : Z) : inject_Z M <= x -> (M <= round_half_even x)%Z.
Proof.
  intros H. apply Qfloor_resp_le in H. rewrite Qfloor_Z in H.
  pose proof (rhe_floor x). lia.
Qed.

Lemma rhe_lt (x : Q) (M : Z) :
  x < inject_Z M - (1 # 2) -> (round_half_even x < M)%Z.
Proof.
  intros H.
  pose proof (Qfloor_le x) as Hf.
  assert (Hlt : (Qfloor x < M)%Z).
  { rewrite Zlt_Qlt. lra. }
  destruct (Z.eq_dec (Qfloor x) (M - 1)%Z) as [E | NE].
  - unfold round_half_even.
    assert (C : Qcompare (x - inject_Z (Qfloor x)) (1 # 2) = Lt).
    { apply (proj1 (Qlt_alt _ _)). rewrite E, inject_Z_minus. change (inject_Z 1) with 1. lra. }
    rewrite C. lia.
  - pose proof (rhe_floor x). lia.
Qed.

Lemma Qfloor_unique (x : Q) (k : Z) :
  inject_Z k <= x -> x < inject_Z k + 1 -> Qfloor x = k.
Proof.
  intros H1 H2.
  pose proof (Qfloor_le x) as Hf. pose proof (Qlt_floor x) as Hl.
  rewrite inject_Z_plus in Hl. change (inject_Z 1) with 1 in Hl.
  assert ((Qfloor x < k + 1)%Z).
  { rewrite Zlt_Qlt, inject_Z_plus. change (inject_Z 1) with 1. lra. }
  assert ((k < Qfloor x + 1)%Z).
  { rewrite Zlt_Qlt, inject_Z_plus. change (inject_Z 1) with 1. lra. }
  lia.
Qed.

(** [2 ^ s] for a negative exponent, through the integer power. *)
Lemma pow2_neg (n : Z) : (0 <= n)%Z -> pow2 (- n) == 1 / inject_Z (2 ^ n).
Proof.
  intros Hn. unfold pow2. rewrite Qpower_opp, Zpower_Qpower by assumption.
  unfold Qdiv. now rewrite Qmult_1_l.
Qed.

Lemma ilog2_le (a : Q) :
  (ilog2 a <= Z.log2 (Qnum a) - Z.log2 (Zpos (Qden a)))%Z.
Proof. unfold ilog2. destruct (Qle_bool _ _); lia. Qed.

Lemma binary64_finite (q : Q) :
  ~ q == 0 ->
  let s := Z.max (ilog2 (Qabs q) - 52) (-1074) in
  let r := inject_Z (round_half_even (q / pow2 s)) * pow2 s in
  Qabs r < pow2 1024 ->
  binary64 q = Fin (Qred r).
Proof.
  intros Hq s r Hr. unfold binary64.
  destruct (Qeq_bool q 0) eqn:E; [apply Qeq_bool_eq in E; contradiction|].
  fold s. fold r.
  destruct (Qle_bool (pow2 1024) (Qabs r)) eqn:E'; [|reflexivity].
  apply Qle_bool_imp_le in E'. lra.
Qed.

Lemma pow2_pos (e : Z) : 0 < pow2 e.
Proof. apply Qpower_0_lt. reflexivity. Qed.

Lemma Zpow2_pos (n : Z) : (0 <= n)%Z -> (0 < 2 ^ n)%Z.
Proof. intros. apply Z.pow_pos_nonneg; lia. Qed.

Lemma pow2_53_1024 : inject_Z (2 ^ 53) < pow2 1024.
Proof. apply (proj1 (Qlt_alt _ _)). vm_compute. reflexivity. Qed.

(** Integers below 2^53 in magnitude are Number values. *)
Lemma binary64_int (q : Q) :
  Qden q = 1%positive -> (Z.abs (Qnum q) < 2 ^ 53)%Z ->
  binary64 q = Fin (inject_Z (Qnum q)).
Proof.
  destruct q as [n d]. cbn [Qnum Qden]. intros -> Hn.
  destruct (Z.eq_dec n 0%Z) as [-> | Hn0]; [reflexivity|].
  assert (Hq : ~ n # 1 == 0).
  { unfold Qeq. simpl. lia. }
  pose proof (ilog2_le (Qabs (n # 1))) as He.
  set (e := ilog2 (Qabs (n # 1))) in *. simpl in He.
  assert (Hl : (Z.log2 (Z.abs n) < 53)%Z).
  { apply Z.log2_lt_pow2; lia. }
  set (s := Z.max (e - 52) (-1074)) in *.
  assert (Hs : (0 <= - s)%Z) by lia.
  assert (Hp : pow2 s == 1 / inject_Z (2 ^ (- s))).
  { rewrite <- (pow2_neg (- s)) by assumption. now rewrite Z.opp_involutive. }
  pose proof (Zpow2_pos (- s) Hs) as HP.
  assert (HPq : 0 < inject_Z (2 ^ (- s))).
  { change 0 with (inject_Z 0). now rewrite <- Zlt_Qlt. }
  assert (Hx : (n # 1) / pow2 s == inject_Z (n * 2 ^ (- s))).
  { rewrite Hp, inject_Z_mult. change (n # 1) with (inject_Z n). field. lra. }
  assert (Hr : inject_Z (round_half_even ((n # 1) / pow2 s)) * pow2 s == inject_Z n).
  { rewrite (rhe_comp _ _ Hx), rhe_Z, Hp, inject_Z_mult. field. lra. }
  rewrite binary64_finite; fold e; fold s.
  - rewrite (Qred_complete _ _ Hr). f_equal. apply Qred_identity. apply Z.gcd_1_r.
  - assumption.
  - rewrite Hr. eapply Qle_lt_trans; [|apply pow2_53_1024].
    apply Qabs_Qle_condition. rewrite <- inject_Z_opp, <- !Zle_Qle. lia.
Qed.

Ltac push_inject_in H :=
  repeat first [ rewrite inject_Z_mult in H | rewrite inject_Z_plus in H
               | rewrite inject_Z_minus in H | rewrite inject_Z_opp in H ];
  change (inject_Z 2) with 2 in H; change (inject_Z 1) with 1 in H.

Lemma inject_Z_pos (b : Z) : (0 < b)%Z -> 0 < inject_Z b.
Proof. intros H. change 0 with (inject_Z 0). now rewrite <- Zlt_Qlt. Qed.

Lemma Qle_Zdiv (M a b : Z) :
  (0 < b)%Z -> (M * b <= a)%Z -> inject_Z M <= inject_Z a / inject_Z b.
Proof.
  intros Hb H. apply Qle_shift_div_l; [now apply inject_Z_pos|].
  now rewrite <- inject_Z_mult, <- Zle_Qle.
Qed.

Lemma Qlt_Zdiv_half (M a b : Z) :
  (0 < b)%Z -> (2 * a < (2 * M - 1) * b)%Z ->
  inject_Z a / inject_Z b < inject_Z M - (1 # 2).
Proof.
  intros Hb H. apply Qlt_shift_div_r; [now apply inject_Z_pos|].
  rewrite Zlt_Qlt in H.
  push_inject_in H. lra.
Qed.

Lemma Zdiv_half_bounds (k m P : Z) :
  (0 < P)%Z -> ((2 * k - 1) * P <= 2 * m)%Z -> (2 * m < (2 * k + 1) * P)%Z ->
  inject_Z k <= inject_Z m / inject_Z P + (1 # 2) /\
  inject_Z m / inject_Z P + (1 # 2) < inject_Z k + 1.
Proof.
  intros HP H1 H2. pose proof (inject_Z_pos P HP) as HPq.
  rewrite Zle_Qle in H1. rewrite Zlt_Qlt in H2.
  push_inject_in H1. push_inject_in H2.
  split.
  - apply Qle_minus_iff. 
    setoid_replace (inject_Z m / inject_Z P + (1 # 2) + - inject_Z k)
      with ((2 * inject_Z m - (2 * inject_Z k - 1) * inject_Z P) / (2 * inject_Z P))
      using relation Qeq by (field; lra).
    apply Qle_shift_div_l; lra.
  - apply Qlt_minus_iff.
    setoid_replace (inject_Z k + 1 + - (inject_Z m / inject_Z P + (1 # 2)))
      with (((2 * inject_Z k + 1) * inject_Z P - 2 * inject_Z m) / (2 * inject_Z P))
      using relation Qeq by (field; lra).
    apply Qlt_shift_div_l; lra.
Qed.

Lemma Qdiv_div_inv (a b c : Q) :
  ~ b == 0 -> ~ c == 0 -> a / b / (1 / c) == a * c / b.
Proof. intros. field. tauto. Qed.

Lemma Qmult_inv_div (a c : Q) : ~ c == 0 -> a * (1 / c) == a / c.
Proof. intros. field. assumption. Qed.

Lemma pow2_54_1024 : inject_Z (2 ^ 54) < pow2 1024.
Proof. apply (proj1 (Qlt_alt _ _)). vm_compute. reflexivity. Qed.

(** Dividing an integer below 2^53 by the milliseconds of a day rounds to
    a Number on the same side of every half-integer. *)
Lemma binary64_days (d : Z) :
  (Z.abs d < 2 ^ 53)%Z ->
  exists r : Q,
    binary64 (inject_Z d / inject_Z 86400000) = Fin r /\
    Qfloor (r + (1 # 2)) = ((2 * d + 86400000) / 172800000)%Z.
Proof.
  intros Hd.
  destruct (Z.eq_dec d 0%Z) as [-> | Hd0].
  { exists 0. split; reflexivity. }
  set (q := inject_Z d / inject_Z 86400000).
  assert (Hq : ~ q == 0).
  { unfold q, Qeq. simpl. lia. }
  pose proof (ilog2_le (Qabs q)) as He.
  set (e := ilog2 (Qabs q)) in *.
  unfold q in He. cbn [Qabs Qnum Qden Qdiv Qmult Qinv inject_Z] in He.
  change (Z.log2 (Zpos (1 * 86400000))) with 26%Z in He.
  assert (Hl : (Z.log2 (Z.abs (d * 1)) < 53)%Z).
  { apply Z.log2_lt_pow2; lia. }
  set (s := Z.max (e - 52) (-1074)).
  set (n := (- s)%Z).
  assert (Hn : (26 <= n)%Z) by lia.
  set (P' := (2 ^ (n - 1))%Z).
  assert (HP' : (2 ^ 25 <= P')%Z).
  { apply Z.pow_le_mono_r; lia. }
  assert (HP : (2 ^ n = 2 * P')%Z).
  { unfold P'. rewrite <- Z.pow_succ_r by lia. f_equal. lia. }
  change (2 ^ 25)%Z with 33554432%Z in HP'.
  change (2 ^ 53)%Z with 9007199254740992%Z in Hd.
  assert (Hp : pow2 s == 1 / inject_Z (2 * P')).
  { rewrite <- HP, <- (pow2_neg n) by lia. unfold n. now rewrite Z.opp_involutive. }
  assert (HPq : 0 < inject_Z (2 * P')) by (apply inject_Z_pos; lia).
  set (k := ((2 * d + 86400000) / 172800000)%Z).
  assert (Hk : (172800000 * k <= 2 * d + 86400000 < 172800000 * (k + 1))%Z).
  { unfold k. split.
    - apply Z.mul_div_le. lia.
    - rewrite Z.mul_add_distr_l, Z.mul_1_r.
      pose proof (Z.mul_succ_div_gt (2 * d + 86400000) 172800000). lia. }
  assert (Hx : q / pow2 s == inject_Z (d * (2 * P')) / inject_Z 86400000).
  { unfold q. rewrite Hp, (inject_Z_mult d). apply Qdiv_div_inv; [discriminate|lra]. }
  set (m := round_half_even (q / pow2 s)).
  assert (Hm1 : ((2 * k - 1) * P' <= m)%Z).
  { apply rhe_ge. rewrite Hx. apply Qle_Zdiv; nia. }
  assert (Hm2 : (m < (2 * k + 1) * P')%Z).
  { apply rhe_lt. rewrite Hx. apply Qlt_Zdiv_half; nia. }
  assert (Hr : inject_Z m * pow2 s == inject_Z m / inject_Z (2 * P')).
  { rewrite Hp. apply Qmult_inv_div. lra. }
  destruct (Zdiv_half_bounds k m (2 * P')) as [B1 B2]; [lia | lia | lia |].
  exists (Qred (inject_Z m * pow2 s)). split.
  - apply binary64_finite; [assumption|]. fold e. fold s. fold m.
    rewrite Hr. eapply Qle_lt_trans; [|apply pow2_54_1024].
    apply Qabs_Qle_condition.
    assert (Hk1 : inject_Z k <= inject_Z (2 ^ 53)).
    { rewrite <- Zle_Qle. change (2 ^ 53)%Z with 9007199254740992%Z. lia. }
    assert (Hk2 : inject_Z (- 2 ^ 53) <= inject_Z k).
    { rewrite <- Zle_Qle. change (2 ^ 53)%Z with 9007199254740992%Z. lia. }
    change (inject_Z (2 ^ 54)) with (2 * inject_Z (2 ^ 53)).
    rewrite inject_Z_opp in Hk2.
    assert (1 <= inject_Z (2 ^ 53)) by discriminate.
    lra.
  - rewrite (Qfloor_comp _ (inject_Z m / inject_Z (2 * P') + (1 # 2))).
    + now apply Qfloor_unique.
    + now rewrite Qred_correct, Hr.
Qed.

Lemma pow2_nonneg (n : Z) : (0 <= n)%Z -> pow2 n == inject_Z (2 ^ n).
Proof. intros H. unfold pow2. now rewrite Zpower_Qpower. Qed.

Lemma pow2_sub (x y : Z) : pow2 (x - y) == pow2 x / pow2 y.
Proof. unfold pow2. apply Qpower_minus. discriminate. Qed.

(** [ilog2] is the integer binary logarithm. *)
Lemma ilog2_spec (a : Q) :
  0 < a -> pow2 (ilog2 a) <= a /\ a < pow2 (ilog2 a + 1).
Proof.
  intros Ha. destruct a as [n d]. unfold Qlt in Ha. cbn in Ha.
  assert (Hn : (0 < n)%Z) by lia.
  pose proof (Z.log2_spec n Hn) as [Hn1 Hn2].
  pose proof (Z.log2_spec (Zpos d) (Pos2Z.is_pos d)) as [Hd1 Hd2].
  pose proof (Z.log2_nonneg n) as Hi. pose proof (Z.log2_nonneg (Zpos d)) as Hj.
  unfold ilog2. cbn [Qnum Qden].
  set (i := Z.log2 n) in *. set (j := Z.log2 (Zpos d)) in *.
  assert (Pi : (0 < 2 ^ i)%Z) by (apply Z.pow_pos_nonneg; lia).
  assert (Pj : (0 < 2 ^ j)%Z) by (apply Z.pow_pos_nonneg; lia).
  rewrite Z.pow_succ_r in Hn2, Hd2 by assumption.
  assert (Eq : n # d == inject_Z n / inject_Z (Zpos d)).
  { rewrite Qmake_Qdiv. reflexivity. }
  assert (Hdq : 0 < inject_Z (Zpos d)) by reflexivity.
  assert (Hiq : 0 < inject_Z (2 ^ i)) by now apply inject_Z_pos.
  assert (Hjq : 0 < inject_Z (2 ^ j)) by now apply inject_Z_pos.
  destruct (Qle_bool (pow2 (i - j)) (n # d)) eqn:E.
  - apply Qle_bool_iff in E. split; [assumption|].
    replace (i - j + 1)%Z with (Z.succ i - j)%Z by lia.
    rewrite pow2_sub, !pow2_nonneg, Eq by lia.
    rewrite Z.pow_succ_r by assumption.
    apply Qlt_shift_div_l; [assumption|].
    unfold Qdiv. rewrite <- Qmult_assoc, (Qmult_comm (/ _)), Qmult_assoc.
    apply Qlt_shift_div_r; [assumption|].
    rewrite <- !inject_Z_mult, <- Zlt_Qlt. nia.
  - assert (E' : n # d < pow2 (i - j)).
    { apply Qnot_le_lt. intros H. apply Qle_bool_iff in H. congruence. }
    split.
    + replace (i - j - 1)%Z with (i - Z.succ j)%Z by lia.
      rewrite pow2_sub, !pow2_nonneg, Eq by lia.
      rewrite Z.pow_succ_r by assumption.
      apply Qle_shift_div_r; [apply inject_Z_pos; lia|].
      unfold Qdiv. rewrite <- Qmult_assoc, (Qmult_comm (/ _)), Qmult_assoc.
      apply Qle_shift_div_l; [assumption|].
      rewrite <- !inject_Z_mult, <- Zle_Qle. nia.
    + now replace (i - j - 1 + 1)%Z with (i - j)%Z by lia.
Qed.

Lemma rhe_error (x : Q) : Qabs (x - inject_Z (round_half_even x)) <= 1 # 2.
Proof.
  pose proof (Qfloor_le x) as H1. pose proof (Qlt_floor x) as H2.
  rewrite inject_Z_plus in H2. change (inject_Z 1) with 1 in H2.
  apply Qabs_Qle_condition. unfold round_half_even.
  destruct (Qcompare (x - inject_Z (Qfloor x)) (1 # 2)) eqn:E.
  - apply Qeq_alt in E.
    destruct (Z.even (Qfloor x));
      rewrite ?inject_Z_plus; change (inject_Z 1) with 1; lra.
  - apply Qlt_alt in E. lra.
  - apply Qgt_alt in E. rewrite inject_Z_plus. change (inject_Z 1) with 1. lra.
Qed.

(** A finite result of [binary64] is a binary64 number, [m * 2 ^ s] with
    [|m| <= 2 ^ 53] and [s >= -1074], within half a unit in the last place
    of the real it rounds. *)
Lemma binary64_nearest (q r : Q) :
  ~ q == 0 -> binary64 q = Fin r ->
  exists (m s : Z),
    (-1074 <= s)%Z /\ (Z.abs m <= 2 ^ 53)%Z /\
    r == inject_Z m * pow2 s /\
    Qabs (q - r) <= (1 # 2) * pow2 s.
Proof.
  intros Hq. unfold binary64.
  destruct (Qeq_bool q 0) eqn:E0; [apply Qeq_bool_eq in E0; contradiction|].
  set (e := ilog2 (Qabs q)). set (s := Z.max (e - 52) (-1074)).
  set (m := round_half_even (q / pow2 s)).
  destruct (Qle_bool _ _); [destruct (Qle_bool 0 q); discriminate|].
  intros [= <-]. exists m, s.
  pose proof (pow2_pos s) as Hs.
  pose proof (rhe_error (q / pow2 s)) as Herr. fold m in Herr.
  assert (Hqs : q == q / pow2 s * pow2 s) by (field; lra).
  split; [lia|]. split; [|split].
  - assert (Ha : 0 < Qabs q).
    { destruct (Qlt_le_dec 0 (Qabs q)) as [H|H]; [assumption|].
      pose proof (Qabs_nonneg q). assert (Hz : Qabs q == 0) by lra.
      exfalso. apply Hq. apply Qabs_Qle_condition in H. lra. }
    destruct (ilog2_spec (Qabs q) Ha) as [_ Hup]. fold e in Hup.
    assert (Hpow : pow2 (e + 1) <= inject_Z (2 ^ 53) * pow2 s).
    { rewrite <- pow2_nonneg by lia. unfold pow2.
      rewrite <- Qpower_plus by discriminate.
      apply Qpower_le_compat_l; [lia|lra]. }
    assert (Hx : Qabs (q / pow2 s) < inject_Z (2 ^ 53)).
    { unfold Qdiv. rewrite Qabs_Qmult, Qabs_Qinv, (Qabs_pos (pow2 s)) by lra.
      apply Qlt_shift_div_r; [assumption|]. lra. }
    apply Qabs_Qlt_condition in Hx as [Hx1 Hx2].
    rewrite <- inject_Z_opp in Hx1.
    assert (m <= 2 ^ 53)%Z.
    { pose proof (rhe_floor (q / pow2 s)) as [_ Hf]. fold m in Hf.
      pose proof (Qfloor_le (q / pow2 s)) as Hfl.
      assert (Qfloor (q / pow2 s) < 2 ^ 53)%Z by (rewrite Zlt_Qlt; lra). lia. }
    assert (- 2 ^ 53 <= m)%Z.
    { apply rhe_ge. lra. }
    lia.
  - apply Qred_correct.
  - rewrite Qred_correct.
    setoid_replace (q - inject_Z m * pow2 s)
      with ((q / pow2 s - inject_Z m) * pow2 s) using relation Qeq
      by (field; lra).
    rewrite Qabs_Qmult, (Qabs_pos (pow2 s)) by lra.
    apply Qmult_le_compat_r; lra.
Qed.

(** Known values. *)
Example binary64_tenth :
  binary64 (1 # 10) = Fin (3602879701896397 # 36028797018963968).
Proof. vm_compute. reflexivity. Qed.

Example binary64_tie_to_even :
  binary64 (inject_Z (2 ^ 53 + 1)) = Fin (inject_Z (2 ^ 53)) /\
  binary64 (inject_Z (2 ^ 53 + 3)) = Fin (inject_Z (2 ^ 53 + 4)).
Proof. vm_compute. split; reflexivity. Qed.

Example binary64_overflow :
  binary64 (inject_Z (2 ^ 1024 - 2 ^ 970)) = PInf /\
  binary64 (inject_Z (10 ^ 400)) = PInf /\
  binary64 (- inject_Z (10 ^ 400)) = NInf.
Proof. vm_compute. repeat split. Qed.

Example binary64_underflow :
  binary64 (5 # 10 ^ 324) = Fin (1 # 2 ^ 1074) /\
  binary64 (2 # 10 ^ 324) = Fin 0.
Proof. vm_compute. split; reflexivity. Qed.

End NumberFacts.

(** ** The day difference *)

Lemma MS_PER_DAY_value : MS_PER_DAY = Fin (inject_Z 86400000).
Proof. vm_compute. reflexivity. Qed.

Lemma Qfloor_Zdiv_half (d : Z) :
  round_half_up (inject_Z d / inject_Z 86400000)
  = ((2 * d + 86400000) / 172800000)%Z.
Proof.
  unfold round_half_up.
  rewrite (Qfloor_comp _ (inject_Z (2 * d + 86400000) / inject_Z 172800000)).
  - symmetry. apply Zdiv_Qdiv.
  - rewrite inject_Z_plus, inject_Z_mult. field. 
Qed.

(** On time values less than 2^53 ms apart the subtraction is exact and
    the division rounds on the right side of every half-integer. *)
Lemma daysDifference_exact (first second : Z) :
  (Z.abs (second - first) < 2 ^ 53)%Z ->
  daysDifference (date_of_ms first) (date_of_ms second)
  = Fin (inject_Z ((2 * (second - first) + 86400000) / 172800000)).
Proof.
  intros H. unfold daysDifference, date_of_ms, valueOf, js_sub.
  rewrite MS_PER_DAY_value.
  rewrite (binary64_int (inject_Z second - inject_Z first)).
  - cbn [Qnum Qden Qminus Qplus Qopp inject_Z].
    replace (second * 1 + - first * 1)%Z with (second - first)%Z by lia.
    unfold js_div.
    change (Qeq_bool (inject_Z 86400000) 0) with false. cbv iota.
    destruct (binary64_days (second - first) H) as (r & -> & Hr).
    unfold Math_round. now rewrite Hr.
  - reflexivity.
  - cbn [Qnum Qden Qminus Qplus Qopp inject_Z].
    replace (second * 1 + - first * 1)%Z with (second - first)%Z by lia.
    assumption.
Qed.

Lemma js_neg_int (k : Z) : js_neg (Fin (inject_Z k)) = Fin (inject_Z (- k)).
Proof.
  unfold js_neg. f_equal. rewrite <- inject_Z_opp.
  apply Qred_identity. apply Z.gcd_1_r.
Qed.

Lemma half_up_opp (d : Z) :
  (d mod 86400000 <> 43200000)%Z ->
  ((2 * d + 86400000) / 172800000
   = - ((2 * (- d) + 86400000) / 172800000))%Z.
Proof. intros H. Z.div_mod_to_equations. lia. Qed.

Lemma half_up_opp_tie (d : Z) :
  (d mod 86400000 = 43200000)%Z ->
  ((2 * d + 86400000) / 172800000
   = - ((2 * (- d) + 86400000) / 172800000) + 1)%Z.
Proof. intros H. Z.div_mod_to_equations. lia. Qed.

(** C4, as the code has it.  For time values less than 2^53 ms apart,
    [daysDifference] is the millisecond difference over 86,400,000 rounded
    to the nearest whole day, a tie going up (towards +Infinity), which is
    what [Math.round] does. *)
Theorem daysDifference_round_half_up (first second : Z) :
  (Z.abs (second - first) < 2 ^ 53)%Z ->
  daysDifference (date_of_ms first) (date_of_ms second)
  = Fin (inject_Z (round_half_up
                     (inject_Z (second - first) / inject_Z 86400000))).
Proof.
  intros H. rewrite Qfloor_Zdiv_half. now apply daysDifference_exact.
Qed.

Lemma daysDifference_round_half_up_witness :
  (Z.abs (0 - 43200000) < 2 ^ 53)%Z /\
  daysDifference (date_of_ms 43200000) (date_of_ms 0)
  = Fin (inject_Z (round_half_up
                     (inject_Z (0 - 43200000) / inject_Z 86400000))).
Proof.
  assert (H : (Z.abs (0 - 43200000) < 2 ^ 53)%Z) by (vm_compute; reflexivity).
  exact (conj H (daysDifference_round_half_up 43200000 0 H)).
Defined.

(** From noon back to midnight is half a day: the code gives 0 days, the
    rule of the specification, ties away from zero, gives -1. *)
Lemma daysDifference_not_half_away_from_zero :
  daysDifference (date_of_ms 43200000) (date_of_ms 0) = Fin (inject_Z 0) /\
  spec_daysDifference 43200000 0 = (-1)%Z /\
  daysDifference (date_of_ms 43200000) (date_of_ms 0)
  <> Fin (inject_Z (spec_daysDifference 43200000 0)).
Proof. vm_compute. repeat split. discriminate. Qed.

(** Away from negative ties the two rules agree. *)
Lemma round_half_up_away (d : Z) :
  (0 <= d \/ d mod 86400000 <> 43200000)%Z ->
  round_half_up (inject_Z d / inject_Z 86400000)
  = round_half_away_from_zero (inject_Z d / inject_Z 86400000).
Proof.
  intros H. unfold round_half_away_from_zero.
  destruct (Qle_bool 0 (inject_Z d / inject_Z 86400000)) eqn:E; [reflexivity|].
  assert (Hneg : (d < 0)%Z).
  { destruct (Z_lt_le_dec d 0) as [Hd|Hd]; [assumption|].
    assert (Hq : Qle_bool 0 (inject_Z d / inject_Z 86400000) = true).
    { apply Qle_bool_iff. apply Qle_shift_div_l; [reflexivity|].
      rewrite Qmult_0_l. change 0%Q with (inject_Z 0). now rewrite <- Zle_Qle. }
    congruence. }
  destruct H as [H|H]; [lia|].
  rewrite Qfloor_Zdiv_half. unfold Qceiling.
  rewrite (Qfloor_comp _ (inject_Z (2 * (- d) + 86400000) / inject_Z 172800000)).
  - rewrite <- Zdiv_Qdiv. now apply half_up_opp.
  - rewrite inject_Z_plus, inject_Z_mult, inject_Z_opp. field.
Qed.

(** Beyond 2^53 ms the subtraction itself rounds, and the day difference
    with it. *)
Remark daysDifference_far_apart :
  daysDifference (date_of_ms (-367199351999999)) (date_of_ms 8640000000000000)
  = Fin (inject_Z 104249993) /\
  round_half_up (inject_Z (8640000000000000 - -367199351999999)
                 / inject_Z 86400000) = 104249992%Z.
Proof. vm_compute. split; reflexivity. Qed.

Lemma js_eq_refl_int (k : Z) : js_eq (Fin (inject_Z k)) (Fin (inject_Z k)) = true.
Proof. apply Qeq_bool_refl. Qed.

(** C5, as the code has it.  For time values less than 2^53 ms apart
    whose difference is not an odd multiple of half a day (43,200,000 ms),
    [daysDifference(a, b)] is [-daysDifference(b, a)], and [==] holds
    between them. *)
Theorem daysDifference_antisymmetric_off_ties (a b : Z) :
  (Z.abs (b - a) < 2 ^ 53)%Z ->
  ((b - a) mod 86400000 <> 43200000)%Z ->
  daysDifference (date_of_ms a) (date_of_ms b)
  = js_neg (daysDifference (date_of_ms b) (date_of_ms a)) /\
  js_eq (daysDifference (date_of_ms a) (date_of_ms b))
        (js_neg (daysDifference (date_of_ms b) (date_of_ms a))) = true.
Proof.
  intros Hr Ht.
  rewrite (daysDifference_exact a b) by assumption.
  rewrite (daysDifference_exact b a) by lia.
  rewrite js_neg_int.
  replace (a - b)%Z with (- (b - a))%Z by lia.
  rewrite <- half_up_opp by assumption.
  split; [reflexivity|apply js_eq_refl_int].
Qed.

Lemma daysDifference_antisymmetric_off_ties_witness :
  (Z.abs (86400000 - 0) < 2 ^ 53)%Z /\
  ((86400000 - 0) mod 86400000 <> 43200000)%Z /\
  daysDifference (date_of_ms 0) (date_of_ms 86400000)
  = js_neg (daysDifference (date_of_ms 86400000) (date_of_ms 0)) /\
  js_eq (daysDifference (date_of_ms 0) (date_of_ms 86400000))
        (js_neg (daysDifference (date_of_ms 86400000) (date_of_ms 0))) = true.
Proof.
  assert (H1 : (Z.abs (86400000 - 0) < 2 ^ 53)%Z) by (vm_compute; reflexivity).
  assert (H2 : ((86400000 - 0) mod 86400000 <> 43200000)%Z)
    by (vm_compute; discriminate).
  exact (conj H1 (conj H2 (daysDifference_antisymmetric_off_ties 0 86400000 H1 H2))).
Defined.

(** Half a day apart: one way rounds up to a day, the other way up to
    zero, and a day is not minus zero. *)
Lemma daysDifference_antisymmetry_fails_at_half_day :
  daysDifference (date_of_ms 0) (date_of_ms 43200000) = Fin (inject_Z 1) /\
  daysDifference (date_of_ms 43200000) (date_of_ms 0) = Fin (inject_Z 0) /\
  js_eq (daysDifference (date_of_ms 0) (date_of_ms 43200000))
        (js_neg (daysDifference (date_of_ms 43200000) (date_of_ms 0))) = false.
Proof. vm_compute. repeat split. Qed.

(** At a tie the two directions differ by one day. *)
Lemma daysDifference_at_ties (a b : Z) :
  (Z.abs (b - a) < 2 ^ 53)%Z ->
  ((b - a) mod 86400000 = 43200000)%Z ->
  exists k : Z,
    daysDifference (date_of_ms b) (date_of_ms a) = Fin (inject_Z k) /\
    daysDifference (date_of_ms a) (date_of_ms b) = Fin (inject_Z (- k + 1)).
Proof.
  intros Hr Ht. eexists. split.
  - apply daysDifference_exact. lia.
  - rewrite (daysDifference_exact a b) by assumption. do 2 f_equal.
    replace (a - b)%Z with (- (b - a))%Z by lia.
    now apply half_up_opp_tie.
Qed.

(** ** The pipeline *)

Section ProgramFacts.

Variable Date_parse : string -> jsnum.
Variable w : world.

Lemma bind_ret_l {A B} (a : A) (f : A -> M B) : bind (ret a) f = f a.
Proof. unfold bind, ret. now destruct (f a). Qed.

Lemma js_or_truthy (a b : value) : truthy b = true -> truthy (js_or a b) = true.
Proof. unfold js_or. now destruct (truthy a) eqn:E. Qed.

Lemma getBucket_truthy : truthy (getBucket w) = true.
Proof. now apply js_or_truthy. Qed.

Lemma getFilename_truthy : truthy (getFilename w) = true.
Proof. now apply js_or_truthy. Qed.

Lemma getAlertTo_truthy : truthy (getAlertTo w) = true.
Proof. now apply js_or_truthy. Qed.

Lemma getAlertFrom_truthy : truthy (getAlertFrom w) = true.
Proof. now apply js_or_truthy. Qed.

Lemma getAlertSubject_truthy : truthy (getAlertSubject w) = true.
Proof. now apply js_or_truthy. Qed.

(** What [parseJson] does, by the outcome of [JSON.parse]. *)
Lemma parseJson_cases (data : string) :
  parseJson data =
  match Json.parse data with
  | Some v => ([], inr v)
  | None =>
      ([console_error (LText "Error: malformed json:") (LText data)],
       inr VUndefined)
  end.
Proof. unfold parseJson. now destruct (Json.parse data). Qed.

Lemma get_dataAsOf_truthy (v : value) :
  truthy v = true -> exists d, get_dataAsOf v = ([], inr d).
Proof. destruct v; try discriminate; intros _; eexists; reflexivity. Qed.

(** What [currencyRatesLoadSuccess] does, by the outcome of [JSON.parse]. *)
Lemma currencyRatesLoadSuccess_cases (data : S3.GetObjectOutput)
    (context : option Context) :
  currencyRatesLoadSuccess Date_parse w data context =
  match Json.parse (S3.Body data) with
  | None =>
      ([console_error (LText "Error: malformed json:")
                      (LText (S3.Body data))], inr tt)
  | Some v =>
      if truthy v
      then ([], inl (ReferenceError "getStaleOlderThanDays is not defined"))
      else ([], inr tt)
  end.
Proof.
  unfold currencyRatesLoadSuccess. rewrite parseJson_cases.
  destruct (Json.parse (S3.Body data)) as [v|]; [|reflexivity].
  cbn [bind]. destruct (truthy v) eqn:Hv; [|reflexivity].
  destruct (get_dataAsOf_truthy v Hv) as [d ->]. reflexivity.
Qed.

Lemma createS3GetObjectParams_defaults :
  createS3GetObjectParams (getBucket w) (getFilename w)
  = ([], inr (Some {| S3.Bucket := getBucket w; S3.Key := getFilename w |})).
Proof.
  unfold createS3GetObjectParams.
  now rewrite getBucket_truthy, getFilename_truthy.
Qed.

Lemma createSendEmailParams_alert (r : result) :
  message r <> EmptyString ->
  createSendEmailParams
    (list_to_map
       [("alertTo", getAlertTo w); ("alertSubject", getAlertSubject w);
        ("alertFrom", getAlertFrom w); ("alertReplyTo", getAlertFrom w);
        ("message", VStr (message r))])
  = ([], inr (Some (alert_request w r))).
Proof.
  intros Hm. unfold createSendEmailParams, prop. cbn [list_to_map foldr uncurry].
  unfold every. simplify_map_eq. cbn [default].
  rewrite getAlertTo_truthy, getAlertSubject_truthy, getAlertFrom_truthy.
  cbn [truthy bind ret].
  destruct (String.eqb (message r) EmptyString) eqn:E.
  - apply String.eqb_eq in E. contradiction.
  - reflexivity.
Qed.

(** [sendAlert] with a result and a context: the request goes out and the
    callback runs on the outcome of the send. *)
Lemma sendAlert_sends (r : result) (c : Context) :
  message r <> EmptyString ->
  sendAlert w (Some r) (Some c)
  = (ses_sendEmail (alert_request w r) :: trace (sendEmailCallback w r (sent w)),
     inr tt).
Proof.
  intros Hm. unfold sendAlert. rewrite (createSendEmailParams_alert r Hm).
  cbn [bind sendEmailHandler ret]. unfold ses_sendEmail_.
  unfold sendEmailCallback, logError, log, console_error_, console_log_, context_done_.
  destruct (sent w); [reflexivity|].
  destruct (getDebug w); reflexivity.
Qed.

End ProgramFacts.

Lemma done_calls_app (t1 t2 : list event) :
  done_calls (app t1 t2) = app (done_calls t1) (done_calls t2).
Proof.
  induction t1 as [|e t1 IH]; [reflexivity|].
  destruct e; cbn [app done_calls]; now rewrite IH.
Qed.

Lemma done_calls_log (w : world) (line : logged) :
  done_calls (trace (log w line)) = [].
Proof. unfold log, console_log_. now destruct (getDebug w). Qed.

(** ** The staleness evaluator *)

Lemma Qtrunc_bound (q : Q) (B : Z) :
  (0 <= B)%Z -> (Qabs q <= inject_Z B)%Q -> (Z.abs (Qtrunc q) <= B)%Z.
Proof.
  intros HB H. apply Qabs_Qle_condition in H as [H1 H2]. unfold Qtrunc.
  destruct (Qle_bool 0 q) eqn:E.
  - apply Qle_bool_iff in E.
    apply Qfloor_resp_le in E, H2. rewrite Qfloor_Z in H2.
    change (Qfloor 0) with 0%Z in E. lia.
  - assert (Hq : (q <= 0)%Q).
    { apply Qnot_lt_le. intros Hlt. apply Qlt_le_weak in Hlt.
      apply Qle_bool_iff in Hlt. congruence. }
    rewrite <- inject_Z_opp in H1.
    apply Qceiling_resp_le in Hq, H1. rewrite Qceiling_Z in H1.
    change (Qceiling 0) with 0%Z in Hq. lia.
Qed.

Lemma TimeClip_time_value (tv : jsnum) :
  MkDate (TimeClip tv) = MkDate NaN \/
  exists t : Z, (Z.abs t <= 8640000000000000)%Z /\
                MkDate (TimeClip tv) = date_of_ms t.
Proof.
  destruct tv as [| | |q]; try (now left). cbn [TimeClip].
  destruct (Qle_bool (Qabs q) (inject_Z 8640000000000000)) eqn:E; [|now left].
  right. exists (Qtrunc q). split; [|reflexivity].
  apply Qle_bool_iff in E. apply Qtrunc_bound; [lia|assumption].
Qed.

(** The date [new Date(v)] makes is an invalid date or a whole number of
    milliseconds within the range of time values. *)
Lemma new_Date_time_value (Date_parse : string -> jsnum) (v : value) (d : Date) :
  new_Date Date_parse v = inr d ->
  d = MkDate NaN \/
  exists t : Z, (Z.abs t <= 8640000000000000)%Z /\ d = date_of_ms t.
Proof.
  assert (H : forall tv, inr (MkDate (TimeClip tv)) = @inr exn Date d ->
            d = MkDate NaN \/
            exists t : Z, (Z.abs t <= 8640000000000000)%Z /\ d = date_of_ms t).
  { intros tv E. assert (Hd : MkDate (TimeClip tv) = d) by congruence.
    rewrite <- Hd. apply TimeClip_time_value. }
  unfold new_Date.
  destruct v as [| |b|n|s|elems|members]; cbv beta zeta iota; try apply H;
    (destruct (ToString _); [discriminate|apply H]).
Qed.

(** [new Date(v)] throws exactly when the conversion of [v] to a text
    does, and the same exception. *)
Lemma new_Date_ToString (Date_parse : string -> jsnum) (v : value) :
  match ToString v with
  | inl e => new_Date Date_parse v = inl e
  | inr _ => exists d, new_Date Date_parse v = inr d
  end.
Proof.
  unfold new_Date.
  destruct v as [| |[|]|n|s|elems|members]; cbv beta zeta iota;
    try (eexists; reflexivity);
    (destruct (ToString _); [reflexivity|eexists; reflexivity]).
Qed.

Lemma new_Date_text (Date_parse : string -> jsnum) (v : value) (d : Date) :
  new_Date Date_parse v = inr d -> exists text, ToString v = inr text.
Proof.
  intros H. pose proof (new_Date_ToString Date_parse v) as Hc.
  destruct (ToString v) as [e|text]; [congruence|now exists text].
Qed.

(** Induction on a value with the hypothesis on the elements of an array. *)
Lemma value_ind_nested (P : value -> Prop) :
  P VUndefined -> P VNull -> (forall b, P (VBool b)) -> (forall n, P (VNum n)) ->
  (forall s, P (VStr s)) ->
  (forall elems, Forall P elems -> P (VArr elems)) ->
  (forall members, P (VObj members)) ->
  forall v, P v.
Proof.
  intros Hu Hn Hb Hnum Hs Ha Ho. fix IH 1.
  intros [| |b|n|s|elems|members];
    [exact Hu|exact Hn|apply Hb|apply Hnum|apply Hs| |apply Ho].
  apply Ha. induction elems as [|x rest IHrest]; constructor;
    [apply IH|exact IHrest].
Qed.

(** The only exception of the conversion. *)
Lemma ToString_TypeError (v : value) (e : exn) :
  ToString v = inl e -> e = TypeError "Cannot convert object to primitive value".
Proof.
  revert e.
  induction v as [| |b|n|s|elems IH|members] using value_ind_nested; intros e;
    cbn [ToString]; try discriminate.
  - now destruct b.
  - destruct (collect _ elems) as [e'|parts] eqn:E; [|discriminate].
    intros [= <-]. revert e' E.
    induction IH as [|x rest Hx _ IHrest]; intros e' E; [discriminate|].
    cbn [collect] in E.
    destruct (match x with
              | VUndefined | VNull => inr EmptyString
              | _ => ToString x
              end) as [ex|y] eqn:Ex.
    + injection E as <-. destruct x; try discriminate; now apply Hx.
    + destruct (collect _ rest) as [er|ys] eqn:Er; [|discriminate].
      injection E as <-. now apply IHrest.
  - destruct (lookup_member _ members); [|discriminate]. now intros [= <-].
Qed.

(** Below the year 13605 the clock is less than 2^53 ms from every time
    value. *)
Lemma clock_within_reach (t clock : Z) :
  (Z.abs t <= 8640000000000000)%Z ->
  (0 <= clock <= 367199254740991)%Z ->
  (Z.abs (clock - t) < 2 ^ 53)%Z.
Proof. change (2 ^ 53)%Z with 9007199254740992%Z. lia. Qed.

(** What [getFileStaleResult] does, case by case: it throws what the
    conversion of [dataAsOf] throws, and otherwise returns the record of
    the branch the comparison takes. *)
Lemma getFileStaleResult_cases (Date_parse : string -> jsnum) (w : world)
    (dataAsOf : value) (T : jsnum) :
  getFileStaleResult Date_parse w dataAsOf T =
  match new_Date Date_parse dataAsOf, ToString dataAsOf with
  | inl e, _ => ([], inl e)
  | inr _, inl e => ([], inl e)
  | inr first, inr text =>
      ([], inr (if js_gt (daysDifference first (date_of_ms (now w))) T
                then {| stale := true;
                        result_ := Some (createResult
                                           (stale_prefix ++ text ++ stale_suffix)) |}
                else {| stale := false;
                        result_ := Some (createResult
                                           (fresh_prefix ++ text ++ fresh_suffix)) |}))
  end.
Proof.
  unfold getFileStaleResult, new_Date_now, lift, bind, ret.
  destruct (new_Date Date_parse dataAsOf) as [e|first]; [reflexivity|].
  destruct (js_gt _ T); destruct (ToString dataAsOf); reflexivity.
Qed.

(** The staleness evaluator on a valid date: stale exactly when the whole
    days since the date, ties up, exceed the threshold. *)
Lemma getFileStaleResult_stale_days (Date_parse : string -> jsnum) (w : world)
    (dataAsOf : value) (T : jsnum) (t : Z) :
  new_Date Date_parse dataAsOf = inr (date_of_ms t) ->
  (Z.abs (now w - t) < 2 ^ 53)%Z ->
  exists r,
    getFileStaleResult Date_parse w dataAsOf T = ([], inr r) /\
    stale r
    = js_gt (Fin (inject_Z (round_half_up
                              (inject_Z (now w - t) / inject_Z 86400000)))) T.
Proof.
  intros Hd Hr. rewrite getFileStaleResult_cases, Hd.
  destruct (new_Date_text _ _ _ Hd) as [text ->].
  eexists. split; [reflexivity|].
  rewrite daysDifference_exact, Qfloor_Zdiv_half by assumption.
  now destruct (js_gt _ T).
Qed.

(** An invalid date is never stale. *)
Lemma getFileStaleResult_invalid_date (Date_parse : string -> jsnum) (w : world)
    (dataAsOf : value) (T : jsnum) :
  new_Date Date_parse dataAsOf = inr (MkDate NaN) ->
  exists r,
    getFileStaleResult Date_parse w dataAsOf T = ([], inr r) /\ stale r = false.
Proof.
  intros Hd. rewrite getFileStaleResult_cases, Hd.
  destruct (new_Date_text _ _ _ Hd) as [text ->].
  eexists. split; [reflexivity|]. unfold date_of_ms. now destruct T.
Qed.

(** Scenarios 1 and 2, and the threshold itself, on the evaluator. *)
Example one_day_old_is_fresh :
  exists r,
    getFileStaleResult Date_parse_utc (run_with [] EmptyString)
      (VStr "2024-05-02T12:00:00Z") (of_Z 2) = ([], inr r) /\
    stale r = false /\
    option_map (fun x => contains "found not to be stale" (message x)) (result_ r)
    = Some true.
Proof. eexists. split; [vm_compute; reflexivity|]. vm_compute. split; reflexivity. Qed.

Example five_days_old_is_stale :
  exists r,
    getFileStaleResult Date_parse_utc (run_with [] EmptyString)
      (VStr "2024-04-28T12:00:00Z") (of_Z 2) = ([], inr r) /\
    stale r = true /\
    option_map (fun x => contains "stale timestamp of 2024-04-28T12:00:00Z"
                           (message x)) (result_ r)
    = Some true.
Proof. eexists. split; [vm_compute; reflexivity|]. vm_compute. split; reflexivity. Qed.

Example two_days_old_is_fresh :
  exists r,
    getFileStaleResult Date_parse_utc (run_with [] EmptyString)
      (VStr "2024-05-01T12:00:00Z") (of_Z 2) = ([], inr r) /\
    stale r = false.
Proof. eexists. split; vm_compute; reflexivity. Qed.

(** A [dataAsOf] that cannot be made a primitive: an object with a member
    [toString], alone or inside an array.  Without that member the object
    is the text [[object Object]], which is no date. *)
Example unconvertible_dataAsOf_throws :
  let error := TypeError "Cannot convert object to primitive value" in
  let w := run_with [] EmptyString in
  getFileStaleResult Date_parse_utc w (VObj [("toString", VNum (of_Z 1))]) (of_Z 2)
  = ([], inl error) /\
  getFileStaleResult Date_parse_utc w
    (VArr [VStr "2024"; VObj [("toString", VNull); ("valueOf", VNull)]]) (of_Z 2)
  = ([], inl error) /\
  exists r,
    getFileStaleResult Date_parse_utc w (VObj [("valueOf", VNum (of_Z 1))]) (of_Z 2)
    = ([], inr r) /\
    stale r = false /\
    option_map (fun x => contains "timestamp of [object Object], found not to be stale"
                           (message x)) (result_ r)
    = Some true.
Proof.
  split; [vm_compute; reflexivity|]. split; [vm_compute; reflexivity|].
  eexists. split; [vm_compute; reflexivity|]. vm_compute. split; reflexivity.
Qed.

(** Scenario 5 on [sendAlert]: the send fails, the result still goes to
    [context.done]. *)
Example failed_send_still_completes :
  let r := createResult "stale" in
  done_calls (trace (sendAlert fetch_denied (Some r) (Some LambdaContext))) = [r].
Proof. vm_compute. reflexivity. Qed.

(** ** The claims *)

(** C1 (the code departs from it).  Whenever the fetched body parses to a
    truthy value, a record with a [dataAsOf] in particular,
    [currencyRatesLoadSuccess] throws a ReferenceError at the bare call
    [getStaleOlderThanDays()]: no event happens, the staleness is never
    evaluated and [context.done] is not invoked. *)
Theorem currencyRatesLoadSuccess_reference_error
    (Date_parse : string -> jsnum) (w : world) (data : S3.GetObjectOutput)
    (context : option Context) (v : value) :
  Json.parse (S3.Body data) = Some v ->
  truthy v = true ->
  let run := currencyRatesLoadSuccess Date_parse w data context in
  outcome run = inl (ReferenceError "getStaleOlderThanDays is not defined") /\
  trace run = [] /\
  done_calls (trace run) = [].
Proof.
  intros Hp Hv run. unfold run.
  rewrite currencyRatesLoadSuccess_cases, Hp, Hv. now repeat split.
Qed.

Lemma currencyRatesLoadSuccess_reference_error_witness :
  let w := run_with [("STALE_OLDER_THAN_DAYS", "2")]
             (body_with "2024-05-02T12:00:00Z") in
  let data := {| S3.Body := body_with "2024-05-02T12:00:00Z" |} in
  let run := currencyRatesLoadSuccess Date_parse_utc w data (Some LambdaContext) in
  daysDifference (MkDate (Date_parse_utc "2024-05-02T12:00:00Z"))
                 (date_of_ms (now w)) = Fin (inject_Z 1) /\
  getStaleOlderThanDays w = Fin (inject_Z 2) /\
  outcome run = inl (ReferenceError "getStaleOlderThanDays is not defined") /\
  trace run = [] /\
  done_calls (trace run) = [].
Proof.
  split; [vm_compute; reflexivity|]. split; [vm_compute; reflexivity|].
  apply (currencyRatesLoadSuccess_reference_error Date_parse_utc _ _ _
           (VObj [("dataAsOf", VStr "2024-05-02T12:00:00Z")])).
  - vm_compute. reflexivity.
  - reflexivity.
Defined.

Lemma js_gt_irrefl (x : jsnum) : js_gt x x = false.
Proof.
  unfold js_gt, js_lt. destruct x as [| | |q]; try reflexivity.
  assert (H : Qle_bool q q = true) by (apply Qle_bool_iff; apply Qle_refl).
  now rewrite H.
Qed.

(** C2.  For every [dataAsOf] of which [new Date] makes a date, valid or
    not, and every threshold, [getFileStaleResult] returns a record that
    is marked stale exactly when the day difference between that date and
    now is greater than the threshold; a threshold equal to the day
    difference gives not stale; in both branches the result is present,
    with the message of the branch around the text of [dataAsOf], which
    is not empty. *)
Theorem getFileStaleResult_stale_iff
    (Date_parse : string -> jsnum) (w : world) (dataAsOf : value) (T : jsnum)
    (first : Date) :
  new_Date Date_parse dataAsOf = inr first ->
  let days := daysDifference first (date_of_ms (now w)) in
  exists text r at_threshold,
    ToString dataAsOf = inr text /\
    getFileStaleResult Date_parse w dataAsOf T = ([], inr r) /\
    stale r = js_gt days T /\
    getFileStaleResult Date_parse w dataAsOf days = ([], inr at_threshold) /\
    stale at_threshold = false /\
    result_ r
    = Some (createResult
              (if stale r
               then stale_prefix ++ text ++ stale_suffix
               else fresh_prefix ++ text ++ fresh_suffix)) /\
    exists m, result_ r = Some m /\ message m <> EmptyString.
Proof.
  intros Hd days. rewrite !getFileStaleResult_cases, Hd.
  destruct (new_Date_text _ _ _ Hd) as [text Ht]. rewrite Ht. fold days.
  rewrite js_gt_irrefl.
  exists text. eexists. eexists.
  split; [reflexivity|]. split; [reflexivity|].
  destruct (js_gt days T); cbn [stale result_];
    (split; [reflexivity|]); (split; [reflexivity|]); (split; [reflexivity|]);
    (split; [reflexivity|]); eexists; (split; [reflexivity|discriminate]).
Qed.

(** The threshold itself: two days after the date with a threshold of
    two days is not stale, with a threshold of one day it is. *)
Lemma getFileStaleResult_stale_iff_witness :
  let w := run_with [] EmptyString in
  let dataAsOf := VStr "2024-05-01T12:00:00Z" in
  let first := date_of_ms 1714564800000 in
  new_Date Date_parse_utc dataAsOf = inr first /\
  daysDifference first (date_of_ms (now w)) = Fin (inject_Z 2) /\
  exists text r at_threshold,
    ToString dataAsOf = inr text /\
    getFileStaleResult Date_parse_utc w dataAsOf (of_Z 1) = ([], inr r) /\
    stale r = js_gt (daysDifference first (date_of_ms (now w))) (of_Z 1) /\
    getFileStaleResult Date_parse_utc w dataAsOf
      (daysDifference first (date_of_ms (now w))) = ([], inr at_threshold) /\
    stale at_threshold = false /\
    result_ r
    = Some (createResult
              (if stale r
               then stale_prefix ++ text ++ stale_suffix
               else fresh_prefix ++ text ++ fresh_suffix)) /\
    exists m, result_ r = Some m /\ message m <> EmptyString.
Proof.
  intros w dataAsOf first.
  assert (H : new_Date Date_parse_utc dataAsOf = inr first)
    by (vm_compute; reflexivity).
  assert (Hdays : daysDifference first (date_of_ms (now w)) = Fin (inject_Z 2))
    by (vm_compute; reflexivity).
  exact (conj H (conj Hdays
    (getFileStaleResult_stale_iff Date_parse_utc w dataAsOf (of_Z 1) first H))).
Defined.

(** What [sendEmailCallback] leaves in the trace. *)
Lemma sendEmailCallback_trace (w : world) (res : result)
    (send_outcome : option AWSError.t) :
  trace (sendEmailCallback w res send_outcome)
  = app match send_outcome with
        | Some e => [console_error (LError e) (LText (AWSError.stack e))]
        | None => trace (log w (LText ("Alert '" ++ message res ++ "' sent. ")))
        end
        [context_done VNull res].
Proof.
  unfold sendEmailCallback, logError, log, console_error_, console_log_, context_done_.
  destruct send_outcome; [reflexivity|]. now destruct (getDebug w).
Qed.

Lemma done_calls_sendEmailCallback (w : world) (res : result)
    (send_outcome : option AWSError.t) :
  done_calls (trace (sendEmailCallback w res send_outcome)) = [res].
Proof.
  rewrite sendEmailCallback_trace, done_calls_app.
  destruct send_outcome; [reflexivity|]. now rewrite done_calls_log.
Qed.

Lemma alerts_sendEmailCallback (w : world) (res : result)
    (send_outcome : option AWSError.t) :
  alerts (trace (sendEmailCallback w res send_outcome)) = [].
Proof.
  unfold sendEmailCallback, logError, log, console_error_, console_log_, context_done_.
  destruct send_outcome; [reflexivity|]. now destruct (getDebug w).
Qed.

(** What [currencyRatesLoadError] leaves in the trace, with a context. *)
Lemma currencyRatesLoadError_trace (w : world) (err : AWSError.t) (c : Context) :
  let res := createResult ("Error reading currency rates file from S3: "
                           ++ AWSError.message err) in
  trace (currencyRatesLoadError w err (Some c))
  = console_error (LError err) (LText (AWSError.stack err))
      :: ses_sendEmail (alert_request w res)
      :: trace (sendEmailCallback w res (sent w)).
Proof.
  intros res. unfold currencyRatesLoadError. fold res.
  now rewrite (sendAlert_sends w res c) by discriminate.
Qed.

(** C8.  For every fetch error, [currencyRatesLoadError] builds the result
    whose message is the fixed prefix followed by [err.message], sends one
    alert whose body is that message, and completes with that result. *)
Theorem currencyRatesLoadError_alerts
    (w : world) (err : AWSError.t) (c : Context) :
  let res := createResult ("Error reading currency rates file from S3: "
                           ++ AWSError.message err) in
  let t := trace (currencyRatesLoadError w err (Some c)) in
  message res
  = "Error reading currency rates file from S3: " ++ AWSError.message err /\
  alerts t = [alert_request w res] /\
  SES.Data (SES.Text (SES.Body_ (SES.Message_ (alert_request w res))))
  = VStr (message res) /\
  done_calls t = [res].
Proof.
  intros res t. unfold t. rewrite currencyRatesLoadError_trace. fold res.
  cbn [alerts done_calls].
  now rewrite alerts_sendEmailCallback, done_calls_sendEmailCallback.
Qed.

(** Scenario 3: the fetch error [access denied]. *)
Example access_denied_alert :
  let t := trace (handler Date_parse_utc fetch_denied (VObj []) (Some LambdaContext)) in
  exists p, alerts t = [p] /\
    SES.Data (SES.Text (SES.Body_ (SES.Message_ p)))
    = VStr "Error reading currency rates file from S3: access denied".
Proof. eexists. split; vm_compute; reflexivity. Qed.

(** C9.  Whatever the outcome of the send, the callback of
    [sendEmailHandler] invokes [context.done] once, with a null error and
    the result it was built with; a send error is logged and nothing more. *)
Theorem sendEmailCallback_completes
    (w : world) (res : result) (c : Context) (send_outcome : option AWSError.t) :
  sendEmailHandler w (Some res) (Some c)
  = ([], inr (Some (sendEmailCallback w res))) /\
  (exists logs,
     trace (sendEmailCallback w res send_outcome) = app logs [context_done VNull res] /\
     done_calls logs = [] /\
     match send_outcome with
     | Some e => logs = [console_error (LError e) (LText (AWSError.stack e))]
     | None => errors_logged logs = []
     end) /\
  done_calls (trace (sendEmailCallback w res send_outcome)) = [res].
Proof.
  split; [reflexivity|]. split; [|apply done_calls_sendEmailCallback].
  rewrite sendEmailCallback_trace. eexists. split; [reflexivity|].
  destruct send_outcome; [now split|].
  unfold log, console_log_. now destruct (getDebug w).
Qed.

(** C10.  A body that is valid JSON with a falsy value ends
    [currencyRatesLoadSuccess] with no event at all: no alert, no
    completion, no error logged; a malformed body logs one error. *)
Theorem currencyRatesLoadSuccess_falsy_silent
    (Date_parse : string -> jsnum) (w : world) (data : S3.GetObjectOutput)
    (context : option Context) :
  (forall v, Json.parse (S3.Body data) = Some v -> truthy v = false ->
             currencyRatesLoadSuccess Date_parse w data context = ([], inr tt)) /\
  (Json.parse (S3.Body data) = None ->
   currencyRatesLoadSuccess Date_parse w data context
   = ([console_error (LText "Error: malformed json:") (LText (S3.Body data))],
      inr tt)).
Proof.
  rewrite currencyRatesLoadSuccess_cases. split.
  - intros v -> ->. reflexivity.
  - intros ->. reflexivity.
Qed.

Lemma currencyRatesLoadSuccess_falsy_silent_witness :
  currencyRatesLoadSuccess Date_parse_utc (run_with [] "null")
    {| S3.Body := "null" |} (Some LambdaContext) = ([], inr tt) /\
  currencyRatesLoadSuccess Date_parse_utc (run_with [] (quoted EmptyString))
    {| S3.Body := quoted EmptyString |} (Some LambdaContext) = ([], inr tt) /\
  currencyRatesLoadSuccess Date_parse_utc (run_with [] "not json")
    {| S3.Body := "not json" |} (Some LambdaContext)
  = ([console_error (LText "Error: malformed json:") (LText "not json")], inr tt).
Proof.
  pose (f := fun body =>
    currencyRatesLoadSuccess_falsy_silent Date_parse_utc (run_with [] body)
      {| S3.Body := body |} (Some LambdaContext)).
  split; [|split].
  - exact (proj1 (f "null") VNull eq_refl eq_refl).
  - exact (proj1 (f (quoted EmptyString)) (VStr EmptyString) eq_refl eq_refl).
  - exact (proj2 (f "not json") eq_refl).
Defined.

(** The handler with a context: the event is logged, the object is
    requested with the resolved bucket and key, and the callback runs on
    what the fetch returns. *)
Lemma handler_with_context (Date_parse : string -> jsnum) (w : world)
    (event : value) (c : Context) :
  handler Date_parse w event (Some c)
  = bind (log w (LEvent event)) (fun _ =>
    bind (emit (s3_getObject {| S3.Bucket := getBucket w; S3.Key := getFilename w |}))
         (fun _ => s3GetObjectCallback Date_parse w (Some c) (fetched w))).
Proof.
  unfold handler. rewrite createS3GetObjectParams_defaults.
  unfold log, console_log_, s3GetObjectHandler, s3_getObject_, emit, bind, ret.
  destruct (getDebug w);
    destruct (s3GetObjectCallback Date_parse w (Some c) (fetched w)) as [t [e|[]]];
    reflexivity.
Qed.

Lemma done_calls_handler (Date_parse : string -> jsnum) (w : world)
    (event : value) (c : Context) :
  done_calls (trace (handler Date_parse w event (Some c)))
  = done_calls (trace (s3GetObjectCallback Date_parse w (Some c) (fetched w))).
Proof.
  rewrite handler_with_context. unfold log, console_log_, emit, bind.
  destruct (getDebug w);
    destruct (s3GetObjectCallback Date_parse w (Some c) (fetched w)) as [t [e|[]]];
    reflexivity.
Qed.

Lemma log_trace (w : world) (line : logged) :
  trace (log w line) = if getDebug w then [console_log line] else [].
Proof. unfold log, console_log_. now destruct (getDebug w). Qed.

(** The trace of the handler with a context: the event line, the request
    and what the callback does with the answer. *)
Lemma handler_trace (Date_parse : string -> jsnum) (w : world)
    (event : value) (c : Context) :
  handler Date_parse w event (Some c)
  = (app (trace (log w (LEvent event)))
         (s3_getObject {| S3.Bucket := getBucket w; S3.Key := getFilename w |}
            :: trace (s3GetObjectCallback Date_parse w (Some c) (fetched w))),
     outcome (s3GetObjectCallback Date_parse w (Some c) (fetched w))).
Proof.
  rewrite handler_with_context. unfold log, console_log_, emit, bind.
  destruct (getDebug w);
    destruct (s3GetObjectCallback Date_parse w (Some c) (fetched w)) as [t [e|[]]];
    reflexivity.
Qed.

Lemma handler_no_context (Date_parse : string -> jsnum) (w : world)
    (event : value) :
  handler Date_parse w event None
  = (app (trace (log w (LEvent event)))
         [console_error (LText "Error: invalid arguments for s3GetObjectHandler")
                        LUndefined], inr tt).
Proof.
  unfold handler. rewrite createS3GetObjectParams_defaults.
  unfold log, console_log_. now destruct (getDebug w).
Qed.

(** The trace of the callback of the fetch, with a context. *)
Lemma s3GetObjectCallback_trace (Date_parse : string -> jsnum) (w : world)
    (c : Context) :
  trace (s3GetObjectCallback Date_parse w (Some c) (fetched w)) =
  match fetched w with
  | inl err =>
      let res := createResult ("Error reading currency rates file from S3: "
                               ++ AWSError.message err) in
      console_error (LError err) (LText (AWSError.stack err))
        :: ses_sendEmail (alert_request w res)
        :: app match sent w with
               | Some e => [console_error (LError e) (LText (AWSError.stack e))]
               | None => trace (log w (LText ("Alert '" ++ message res ++ "' sent. ")))
               end
               [context_done VNull res]
  | inr data =>
      match Json.parse (S3.Body data) with
      | None => [console_error (LText "Error: malformed json:")
                               (LText (S3.Body data))]
      | Some _ => []
      end
  end.
Proof.
  destruct (fetched w) as [err|data]; cbn [s3GetObjectCallback].
  - rewrite currencyRatesLoadError_trace, sendEmailCallback_trace. reflexivity.
  - rewrite currencyRatesLoadSuccess_cases.
    destruct (Json.parse (S3.Body data)) as [v|]; [|reflexivity].
    now destruct (truthy v).
Qed.

Lemma s3GetObjectCallback_outcome (Date_parse : string -> jsnum) (w : world)
    (c : Context) :
  outcome (s3GetObjectCallback Date_parse w (Some c) (fetched w)) =
  match fetched w with
  | inl _ => inr tt
  | inr data =>
      if parses_truthy (S3.Body data)
      then inl (ReferenceError "getStaleOlderThanDays is not defined")
      else inr tt
  end.
Proof.
  destruct (fetched w) as [err|data]; cbn [s3GetObjectCallback].
  - unfold currencyRatesLoadError.
    rewrite (sendAlert_sends w _ c) by discriminate. reflexivity.
  - rewrite currencyRatesLoadSuccess_cases. unfold parses_truthy.
    destruct (Json.parse (S3.Body data)) as [v|]; [|reflexivity].
    now destruct (truthy v).
Qed.

(** C3, as the code has it.  When the fetch fails, the alert is sent and
    [context.done] is invoked exactly once, as the last event of the
    invocation: after the send and after what the callback of the send
    logs about its outcome, a failed send being logged as an error and
    nothing else.  The invocation ends without [context.done] when the
    fetch succeeds and the body is malformed or parses to a falsy value,
    and when the context is missing. *)
Theorem handler_completion
    (Date_parse : string -> jsnum) (w : world) (event : value) :
  (forall c err, fetched w = inl err ->
     let res := createResult ("Error reading currency rates file from S3: "
                              ++ AWSError.message err) in
     let run := handler Date_parse w event (Some c) in
     outcome run = inr tt /\
     length (done_calls (trace run)) = 1%nat /\
     done_calls (trace run) = [res] /\
     exists before after,
       trace run = app before (ses_sendEmail (alert_request w res)
                                 :: app after [context_done VNull res]) /\
       done_calls before = [] /\ alerts before = [] /\
       done_calls after = [] /\ alerts after = [] /\
       match sent w with
       | Some e => after = [console_error (LError e) (LText (AWSError.stack e))]
       | None => errors_logged after = []
       end) /\
  (forall c data, fetched w = inr data -> parses_truthy (S3.Body data) = false ->
     outcome (handler Date_parse w event (Some c)) = inr tt /\
     done_calls (trace (handler Date_parse w event (Some c))) = []) /\
  outcome (handler Date_parse w event None) = inr tt /\
  done_calls (trace (handler Date_parse w event None)) = [].
Proof.
  split; [|split].
  - intros c err Hf res run. unfold run. rewrite handler_trace.
    cbn [trace outcome fst snd].
    rewrite s3GetObjectCallback_outcome, s3GetObjectCallback_trace, Hf.
    cbv zeta. fold res. rewrite log_trace.
    split; [reflexivity|].
    set (after := match sent w with
                  | Some e => [console_error (LError e) (LText (AWSError.stack e))]
                  | None => trace (log w (LText ("Alert '" ++ message res ++ "' sent. ")))
                  end).
    assert (Hafter : done_calls after = [] /\ alerts after = [] /\
                     match sent w with
                     | Some e => after
                                 = [console_error (LError e) (LText (AWSError.stack e))]
                     | None => errors_logged after = []
                     end).
    { unfold after. destruct (sent w); [now repeat split|].
      rewrite log_trace. now destruct (getDebug w). }
    destruct Hafter as (Hd & Ha & Hs).
    assert (Hdone : done_calls
                      (app (if getDebug w then [console_log (LEvent event)] else [])
                         (s3_getObject {| S3.Bucket := getBucket w;
                                          S3.Key := getFilename w |}
                          :: console_error (LError err) (LText (AWSError.stack err))
                          :: ses_sendEmail (alert_request w res)
                          :: app after [context_done VNull res])) = [res]).
    { rewrite done_calls_app. cbn [done_calls]. rewrite done_calls_app, Hd.
      now destruct (getDebug w). }
    split; [now rewrite Hdone|]. split; [exact Hdone|].
    exists (app (if getDebug w then [console_log (LEvent event)] else [])
                [s3_getObject {| S3.Bucket := getBucket w; S3.Key := getFilename w |};
                 console_error (LError err) (LText (AWSError.stack err))]).
    exists after. split; [now rewrite <- app_assoc|].
    split; [now destruct (getDebug w)|]. split; [now destruct (getDebug w)|].
    now repeat split.
  - intros c data Hf Hp. rewrite handler_trace. cbn [trace outcome fst snd].
    rewrite s3GetObjectCallback_outcome, s3GetObjectCallback_trace, Hf, Hp.
    split; [reflexivity|].
    rewrite done_calls_app, done_calls_log. cbn [done_calls app].
    now destruct (Json.parse (S3.Body data)).
  - rewrite handler_no_context. cbn [trace outcome fst snd].
    split; [reflexivity|]. now rewrite done_calls_app, done_calls_log.
Qed.

Lemma handler_completion_witness :
  (let res := createResult "Error reading currency rates file from S3: access denied" in
   let run := handler Date_parse_utc fetch_denied (VObj []) (Some LambdaContext) in
   outcome run = inr tt /\
   length (done_calls (trace run)) = 1%nat /\
   done_calls (trace run) = [res] /\
   exists before after,
     trace run = app before (ses_sendEmail (alert_request fetch_denied res)
                               :: app after [context_done VNull res]) /\
     done_calls before = [] /\ alerts before = [] /\
     done_calls after = [] /\ alerts after = [] /\
     match sent fetch_denied with
     | Some e => after = [console_error (LError e) (LText (AWSError.stack e))]
     | None => errors_logged after = []
     end) /\
  (let run := handler Date_parse_utc (run_with [] "not json") (VObj [])
                (Some LambdaContext) in
   outcome run = inr tt /\ done_calls (trace run) = []) /\
  (let run := handler Date_parse_utc (run_with [] "null") (VObj []) None in
   outcome run = inr tt /\ done_calls (trace run) = []).
Proof.
  split; [|split].
  - exact (proj1 (handler_completion Date_parse_utc fetch_denied (VObj []))
             LambdaContext access_denied eq_refl).
  - exact (proj1 (proj2 (handler_completion Date_parse_utc
                           (run_with [] "not json") (VObj [])))
             LambdaContext {| S3.Body := "not json" |} eq_refl eq_refl).
  - exact (proj2 (proj2 (handler_completion Date_parse_utc (run_with [] "null") (VObj [])))).
Defined.

(** The body [null] parses, the bucket, the key and the context are
    there, and the invocation ends without [context.done]. *)
Lemma completion_skipped_on_null_body :
  Json.parse "null" = Some VNull /\
  handler Date_parse_utc (run_with [] "null") (VObj []) (Some LambdaContext)
  = ([console_log (LEvent (VObj []));
      s3_getObject {| S3.Bucket := VStr "currency.prebid.org";
                      S3.Key := VStr "latest.json" |}], inr tt) /\
  length (done_calls (trace (handler Date_parse_utc (run_with [] "null")
                               (VObj []) (Some LambdaContext)))) <> 1%nat.
Proof. vm_compute. repeat split. discriminate. Qed.

(** [getAlertSubject] is the default subject or a number, never the text
    of the variable. *)
Lemma getAlertSubject_cases (w : world) :
  getAlertSubject w
  = let n := parseFloat (env w !! "ALERT_SUBJECT") in
    if Number.truthy n then VNum n else VStr default_subject.
Proof. reflexivity. Qed.

Lemma getAlertSubject_text (w : world) (s : string) :
  getAlertSubject w = VStr s -> s = default_subject.
Proof.
  rewrite getAlertSubject_cases. cbv zeta.
  destruct (Number.truthy _); [discriminate|]. now intros [= <-].
Qed.

(** C6 (the code departs from it).  With [ALERT_SUBJECT] set to a text,
    [getAlertSubject] returns the default subject, not the text: the
    value goes through [parseFloat] first.  A text that starts with a
    number gives that number. *)
Theorem getAlertSubject_ignores_text :
  let w := run_with [("ALERT_SUBJECT", "Currency rates file is stale")] EmptyString in
  env w !! "ALERT_SUBJECT" = Some "Currency rates file is stale" /\
  getAlertSubject w = VStr "ALERT: Prebid Currency Rates File Monitor" /\
  getAlertSubject w <> VStr "Currency rates file is stale" /\
  getAlertSubject (run_with [("ALERT_SUBJECT", "24h without rates")] EmptyString)
  = VNum (Fin (inject_Z 24)).
Proof. vm_compute. repeat split. discriminate. Qed.

(** The four textual resolvers do return the variable when it is set to a
    non-empty text, and their default otherwise. *)
Lemma textual_resolvers (w : world) (name fallback : string) :
  js_or (process_env w name) (VStr fallback)
  = match env w !! name with
    | Some s => if String.eqb s EmptyString then VStr fallback else VStr s
    | None => VStr fallback
    end.
Proof.
  unfold js_or, process_env. destruct (env w !! name) as [s|]; [|reflexivity].
  cbn [truthy]. now destruct (String.eqb s EmptyString).
Qed.

(** What [createSendEmailParams] does: the first missing field is logged
    and nothing is returned, or the request is built. *)
Lemma createSendEmailParams_cases (config : gmap string value) :
  createSendEmailParams config =
  match first_missing config with
  | Some name =>
      ([console_error
          (LText ("Error: missing required argument for createSendEmailParams:"
                  ++ name)) LUndefined], inr None)
  | None =>
      ([], inr (Some
        {| SES.Destination_ := {| SES.ToAddresses := prop config "alertTo" |};
           SES.Message_ :=
             {| SES.Subject :=
                  {| SES.Data := prop config "alertSubject";
                     SES.Charset := "UTF-8" |};
                SES.Body_ :=
                  {| SES.Text :=
                       {| SES.Data := prop config "message";
                          SES.Charset := "UTF-8" |} |} |};
           SES.Source := prop config "alertFrom";
           SES.ReplyToAddresses := [prop config "alertReplyTo"] |}))
  end.
Proof.
  unfold createSendEmailParams, first_missing, every, find.
  destruct (truthy (prop config "alertTo")); [|reflexivity].
  destruct (truthy (prop config "alertSubject")); [|reflexivity].
  destruct (truthy (prop config "alertFrom")); [|reflexivity].
  destruct (truthy (prop config "alertReplyTo")); [|reflexivity].
  destruct (truthy (prop config "message")); reflexivity.
Qed.

(** C7 (the code departs from it).  With the five fields present the
    request carries the recipient itself as [ToAddresses], not an array
    holding it, while the reply-to address is in an array. *)
Theorem createSendEmailParams_destination_not_array :
  let config : gmap string value :=
    list_to_map
      [("alertTo", VStr "alerts@prebid.org"); ("alertSubject", VStr "ALERT");
       ("alertFrom", VStr "monitor@prebid.org");
       ("alertReplyTo", VStr "monitor@prebid.org");
       ("message", VStr "stale")] in
  exists p,
    createSendEmailParams config = ([], inr (Some p)) /\
    SES.ToAddresses (SES.Destination_ p) = VStr "alerts@prebid.org" /\
    SES.ToAddresses (SES.Destination_ p) <> VArr [VStr "alerts@prebid.org"] /\
    SES.ReplyToAddresses p = [VStr "monitor@prebid.org"].
Proof.
  intros config. rewrite createSendEmailParams_cases.
  eexists. split; [vm_compute; reflexivity|].
  vm_compute. repeat split. discriminate.
Qed.

(** * Further properties of the code *)

(** ** The day difference and the staleness evaluator *)

(** X13.  For time values less than 2^53 ms apart, [daysDifference] is a
    whole number of days within half a day of the millisecond difference:
    at most half a day above it, less than half a day below it. *)
Theorem daysDifference_within_half_day (first second : Z) :
  (Z.abs (second - first) < 2 ^ 53)%Z ->
  exists k : Z,
    daysDifference (date_of_ms first) (date_of_ms second) = Fin (inject_Z k) /\
    (86400000 * k - 43200000 <= second - first < 86400000 * k + 43200000)%Z.
Proof.
  intros H. eexists. split; [now apply daysDifference_exact|].
  Z.div_mod_to_equations. lia.
Qed.

Lemma daysDifference_within_half_day_witness :
  (Z.abs (129600000 - 0) < 2 ^ 53)%Z /\
  exists k : Z,
    daysDifference (date_of_ms 0) (date_of_ms 129600000) = Fin (inject_Z k) /\
    (86400000 * k - 43200000 <= 129600000 - 0 < 86400000 * k + 43200000)%Z.
Proof.
  assert (H : (Z.abs (129600000 - 0) < 2 ^ 53)%Z) by (vm_compute; reflexivity).
  exact (conj H (daysDifference_within_half_day 0 129600000 H)).
Defined.

(** X14.  Moving the second date by whole days moves the day difference
    by as many days: for time values less than 2^53 ms apart before and
    after the move. *)
Theorem daysDifference_whole_day_shift (first second n : Z) :
  (Z.abs (second - first) < 2 ^ 53)%Z ->
  (Z.abs (second + 86400000 * n - first) < 2 ^ 53)%Z ->
  exists k : Z,
    daysDifference (date_of_ms first) (date_of_ms second) = Fin (inject_Z k) /\
    daysDifference (date_of_ms first) (date_of_ms (second + 86400000 * n))
    = Fin (inject_Z (k + n)).
Proof.
  intros H1 H2. eexists. split; [now apply daysDifference_exact|].
  rewrite daysDifference_exact by assumption. do 2 f_equal.
  Z.div_mod_to_equations. lia.
Qed.

Lemma daysDifference_whole_day_shift_witness :
  (Z.abs (50000000 - 0) < 2 ^ 53)%Z /\
  (Z.abs (50000000 + 86400000 * 3 - 0) < 2 ^ 53)%Z /\
  exists k : Z,
    daysDifference (date_of_ms 0) (date_of_ms 50000000) = Fin (inject_Z k) /\
    daysDifference (date_of_ms 0) (date_of_ms (50000000 + 86400000 * 3))
    = Fin (inject_Z (k + 3)).
Proof.
  assert (H1 : (Z.abs (50000000 - 0) < 2 ^ 53)%Z) by (vm_compute; reflexivity).
  assert (H2 : (Z.abs (50000000 + 86400000 * 3 - 0) < 2 ^ 53)%Z)
    by (vm_compute; reflexivity).
  exact (conj H1 (conj H2 (daysDifference_whole_day_shift 0 50000000 3 H1 H2))).
Defined.

Lemma js_gt_int (K k : Z) :
  js_gt (Fin (inject_Z K)) (Fin (inject_Z k)) = true <-> (k < K)%Z.
Proof.
  unfold js_gt, js_lt. rewrite negb_true_iff, Zlt_Qlt. split.
  - intros H. apply Qnot_le_lt. intros Hle. apply Qle_bool_iff in Hle. congruence.
  - intros H. destruct (Qle_bool (inject_Z K) (inject_Z k)) eqn:E; [|reflexivity].
    apply Qle_bool_iff in E. exfalso. apply (Qlt_not_le _ _ H E).
Qed.

(** X11.  With a valid date and a whole number [k] of days as threshold,
    [getFileStaleResult] returns, and the file is stale exactly from [k]
    days and a half on: when the clock is at least
    86,400,000 k + 43,200,000 ms past the date. *)
Theorem getFileStaleResult_stale_from_half_day
    (Date_parse : string -> jsnum) (w : world) (dataAsOf : value) (t k : Z) :
  new_Date Date_parse dataAsOf = inr (date_of_ms t) ->
  (Z.abs (now w - t) < 2 ^ 53)%Z ->
  exists r,
    getFileStaleResult Date_parse w dataAsOf (Fin (inject_Z k)) = ([], inr r) /\
    (stale r = true <-> (86400000 * k + 43200000 <= now w - t)%Z).
Proof.
  intros Hd Hr. rewrite getFileStaleResult_cases, Hd.
  destruct (new_Date_text _ _ _ Hd) as [text ->].
  eexists. split; [reflexivity|].
  rewrite daysDifference_exact by assumption.
  set (K := ((2 * (now w - t) + 86400000) / 172800000)%Z).
  assert (HK : js_gt (Fin (inject_Z K)) (Fin (inject_Z k)) = true <-> (k < K)%Z)
    by apply js_gt_int.
  assert (Hb : (k < K <-> 86400000 * k + 43200000 <= now w - t)%Z).
  { unfold K. Z.div_mod_to_equations. lia. }
  destruct (js_gt (Fin (inject_Z K)) (Fin (inject_Z k))); cbn [stale];
    split; intros H; try discriminate; try reflexivity.
  - apply Hb, HK. reflexivity.
  - apply Hb, HK in H. discriminate.
Qed.

Lemma getFileStaleResult_stale_from_half_day_witness :
  let w := run_with [] EmptyString in
  new_Date Date_parse_utc (VStr "2024-05-01T00:00:00Z")
  = inr (date_of_ms 1714521600000) /\
  (Z.abs (now w - 1714521600000) < 2 ^ 53)%Z /\
  exists r,
    getFileStaleResult Date_parse_utc w (VStr "2024-05-01T00:00:00Z")
      (Fin (inject_Z 2)) = ([], inr r) /\
    (stale r = true <-> (86400000 * 2 + 43200000 <= now w - 1714521600000)%Z).
Proof.
  intros w.
  assert (H1 : new_Date Date_parse_utc (VStr "2024-05-01T00:00:00Z")
               = inr (date_of_ms 1714521600000)) by (vm_compute; reflexivity).
  assert (H2 : (Z.abs (now w - 1714521600000) < 2 ^ 53)%Z)
    by (vm_compute; reflexivity).
  exact (conj H1 (conj H2
    (getFileStaleResult_stale_from_half_day Date_parse_utc w _ _ 2 H1 H2))).
Defined.

Lemma js_gt_mono (a b : Z) (T : jsnum) :
  (a <= b)%Z ->
  js_gt (Fin (inject_Z a)) T = true -> js_gt (Fin (inject_Z b)) T = true.
Proof.
  intros Hab. unfold js_gt, js_lt. destruct T as [| | |q]; try easy.
  rewrite !negb_true_iff. intros H.
  destruct (Qle_bool (inject_Z b) q) eqn:E; [|reflexivity].
  apply Qle_bool_iff in E. rewrite Zle_Qle in Hab.
  assert (Hle : (inject_Z a <= q)%Q) by (eapply Qle_trans; eassumption).
  apply Qle_bool_iff in Hle. congruence.
Qed.

(** X12.  Staleness only grows with the clock: a valid date that
    [getFileStaleResult] reports stale at one time is reported stale at
    every later time, whatever the threshold. *)
Theorem getFileStaleResult_stays_stale
    (Date_parse : string -> jsnum) (w : world) (dataAsOf : value) (T : jsnum)
    (t later : Z) (r : fileDateResult) :
  new_Date Date_parse dataAsOf = inr (date_of_ms t) ->
  (Z.abs (now w - t) < 2 ^ 53)%Z ->
  (Z.abs (later - t) < 2 ^ 53)%Z ->
  (now w <= later)%Z ->
  getFileStaleResult Date_parse w dataAsOf T = ([], inr r) ->
  stale r = true ->
  exists r',
    getFileStaleResult Date_parse (at_time later w) dataAsOf T = ([], inr r') /\
    stale r' = true.
Proof.
  intros Hd H1 H2 Hle. rewrite !getFileStaleResult_cases, Hd. cbn [now at_time].
  destruct (new_Date_text _ _ _ Hd) as [text ->].
  rewrite !daysDifference_exact by assumption.
  set (K1 := ((2 * (now w - t) + 86400000) / 172800000)%Z).
  set (K2 := ((2 * (later - t) + 86400000) / 172800000)%Z).
  assert (HK : (K1 <= K2)%Z).
  { unfold K1, K2. apply Z.div_le_mono; lia. }
  destruct (js_gt (Fin (inject_Z K1)) T) eqn:E.
  - intros _ _. rewrite (js_gt_mono K1 K2 T HK E).
    eexists. split; reflexivity.
  - intros [= <-]. discriminate.
Qed.

Lemma getFileStaleResult_stays_stale_witness :
  let w := run_with [] EmptyString in
  let d := VStr "2024-04-28" in
  new_Date Date_parse_utc d = inr (date_of_ms 1714262400000) /\
  (now w <= now w + 1000)%Z /\
  (exists r, getFileStaleResult Date_parse_utc w d (of_Z 2) = ([], inr r) /\
             stale r = true) /\
  exists r',
    getFileStaleResult Date_parse_utc (at_time (now w + 1000) w) d (of_Z 2)
    = ([], inr r') /\
    stale r' = true.
Proof.
  intros w d.
  assert (Hd : new_Date Date_parse_utc d = inr (date_of_ms 1714262400000))
    by (vm_compute; reflexivity).
  assert (H1 : (Z.abs (now w - 1714262400000) < 2 ^ 53)%Z)
    by (vm_compute; reflexivity).
  assert (H2 : (Z.abs (now w + 1000 - 1714262400000) < 2 ^ 53)%Z)
    by (vm_compute; reflexivity).
  assert (Hle : (now w <= now w + 1000)%Z) by (vm_compute; discriminate).
  destruct (getFileStaleResult_stale_days Date_parse_utc w d (of_Z 2) _ Hd H1)
    as (r & Hr & Hs).
  assert (Hstale : stale r = true) by (rewrite Hs; vm_compute; reflexivity).
  exact (conj Hd (conj Hle (conj (ex_intro _ r (conj Hr Hstale))
    (getFileStaleResult_stays_stale Date_parse_utc w d (of_Z 2) _ _ r
       Hd H1 H2 Hle Hr Hstale)))).
Defined.

(** ** Messages *)

Lemma append_assoc (a b c : string) : (a ++ b) ++ c = a ++ (b ++ c).
Proof.
  induction a as [|x a IH]; [reflexivity|].
  change (String x ((a ++ b) ++ c) = String x (a ++ (b ++ c))).
  now f_equal.
Qed.

Lemma prefix_app (p s : string) : String.prefix p (p ++ s) = true.
Proof.
  induction p as [|c p IH]; [now destruct s|].
  simpl.
  destruct (Ascii.ascii_dec c c); [assumption|contradiction].
Qed.

Lemma contains_here (needle s : string) : contains needle (needle ++ s) = true.
Proof.
  destruct (needle ++ s) eqn:E; cbn [contains]; rewrite <- E, prefix_app;
    reflexivity.
Qed.

Lemma contains_after (needle a s : string) :
  contains needle s = true -> contains needle (a ++ s) = true.
Proof.
  intros H. induction a as [|c a IH]; [assumption|].
  change (String c a ++ s) with (String c (a ++ s)).
  cbn [contains]. rewrite IH. apply orb_true_r.
Qed.

(** X10.  A [dataAsOf] of which [new Date] makes an invalid date (a
    missing one, or a text that does not parse) is never stale, whatever
    the threshold and the clock: [getFileStaleResult] returns the result
    that says the data was found not to be stale. *)
Theorem getFileStaleResult_invalid_date_is_fresh
    (Date_parse : string -> jsnum) (w : world) (dataAsOf : value) (T : jsnum) :
  new_Date Date_parse dataAsOf = inr (MkDate NaN) ->
  exists text,
    ToString dataAsOf = inr text /\
    getFileStaleResult Date_parse w dataAsOf T
    = ([], inr {| stale := false;
                  result_ := Some (createResult
                                     (fresh_prefix ++ text ++ fresh_suffix)) |}).
Proof.
  intros Hd. rewrite getFileStaleResult_cases, Hd.
  destruct (new_Date_text _ _ _ Hd) as [text ->].
  exists text. split; [reflexivity|]. unfold date_of_ms. now destruct T.
Qed.

Lemma getFileStaleResult_invalid_date_is_fresh_witness :
  new_Date Date_parse_utc VUndefined = inr (MkDate NaN) /\
  exists text,
    ToString VUndefined = inr text /\
    getFileStaleResult Date_parse_utc (run_with [] EmptyString) VUndefined (of_Z 2)
    = ([], inr {| stale := false;
                  result_ := Some (createResult
                                     (fresh_prefix ++ text ++ fresh_suffix)) |}).
Proof.
  assert (H : new_Date Date_parse_utc VUndefined = inr (MkDate NaN))
    by reflexivity.
  exact (conj H (getFileStaleResult_invalid_date_is_fresh Date_parse_utc
                   (run_with [] EmptyString) VUndefined (of_Z 2) H)).
Defined.

(** X15.  [getFileStaleResult] produces no event.  It throws exactly when
    [dataAsOf] cannot be converted to a text, the TypeError of that
    conversion; otherwise it returns a result whose message quotes the
    text of [dataAsOf] and says [stale timestamp of] when the file is
    stale and [found not to be stale] when it is not. *)
Theorem getFileStaleResult_message
    (Date_parse : string -> jsnum) (w : world) (dataAsOf : value) (T : jsnum) :
  let run := getFileStaleResult Date_parse w dataAsOf T in
  trace run = [] /\
  match ToString dataAsOf with
  | inl e =>
      e = TypeError "Cannot convert object to primitive value" /\
      outcome run = inl e
  | inr text =>
      exists r m,
        outcome run = inr r /\ result_ r = Some m /\
        contains text (message m) = true /\
        contains (if stale r then "stale timestamp of " ++ text
                  else "found not to be stale") (message m) = true
  end.
Proof.
  intros run. unfold run. rewrite getFileStaleResult_cases.
  pose proof (new_Date_ToString Date_parse dataAsOf) as Hc.
  pose proof (ToString_TypeError dataAsOf) as He.
  destruct (ToString dataAsOf) as [e|text].
  - rewrite Hc. split; [reflexivity|]. split; [now apply He|reflexivity].
  - destruct Hc as [d ->]. split; [reflexivity|].
    destruct (js_gt _ T); eexists; eexists; (split; [reflexivity|]);
      (split; [reflexivity|]); cbn [message createResult stale]; split.
    + apply contains_after, contains_here.
    + change stale_prefix with
        ("The Prebid currency rates conversion data has a "
         ++ "stale timestamp of ").
      rewrite append_assoc. apply contains_after.
      rewrite <- append_assoc. apply contains_here.
    + apply contains_after, contains_here.
    + apply contains_after, contains_after.
      change fresh_suffix with (", " ++ "found not to be stale" ++ ".").
      apply contains_after, contains_here.
Qed.

(** ** Configuration, request building and parsing *)

(** X2.  The four textual resolvers return the environment variable when
    it is set to a non-empty text and their default when it is unset or
    empty; what they return is never empty. *)
Theorem textual_resolvers_fall_back (w : world) :
  let resolve name fallback :=
    VStr match env w !! name with
         | Some s => if String.eqb s EmptyString then fallback else s
         | None => fallback
         end in
  getBucket w = resolve "S3_BUCKET" "currency.prebid.org" /\
  getFilename w = resolve "S3_FILENAME" "latest.json" /\
  getAlertFrom w = resolve "ALERT_FROM" "alerts@prebid.org" /\
  getAlertTo w = resolve "ALERT_TO" "alerts@prebid.org" /\
  Forall (fun v => truthy v = true)
         [getBucket w; getFilename w; getAlertFrom w; getAlertTo w].
Proof.
  intros resolve. unfold resolve, getBucket, getFilename, getAlertFrom, getAlertTo.
  rewrite !textual_resolvers.
  repeat split;
    try (destruct (env w !! _) as [s|]; [destruct (String.eqb s EmptyString)|];
         reflexivity).
  repeat constructor;
    (destruct (env w !! _) as [s|]; [destruct (String.eqb s EmptyString) eqn:E|];
     cbn [truthy]; rewrite ?E; reflexivity).
Qed.

(** X3.  The threshold [getStaleOlderThanDays] returns is never NaN and
    never zero: it is the number [STALE_OLDER_THAN_DAYS] starts with when
    there is one other than zero, and 2 otherwise, so a threshold of zero
    days cannot be configured. *)
Theorem getStaleOlderThanDays_never_zero (w : world) :
  Number.truthy (getStaleOlderThanDays w) = true /\
  getStaleOlderThanDays w <> NaN /\
  js_eq (getStaleOlderThanDays w) (of_Z 0) = false /\
  (Number.truthy (parseFloat (env w !! "STALE_OLDER_THAN_DAYS")) = false ->
   getStaleOlderThanDays w = Fin (inject_Z 2)).
Proof.
  unfold getStaleOlderThanDays.
  destruct (Number.truthy (parseFloat (env w !! "STALE_OLDER_THAN_DAYS"))) eqn:E.
  - repeat split.
    + assumption.
    + intros H. rewrite H in E. discriminate.
    + destruct (parseFloat _) as [| | |q]; try reflexivity.
      cbn [Number.truthy] in E. apply negb_true_iff in E. exact E.
    + discriminate.
  - repeat split. discriminate.
Qed.

Lemma getStaleOlderThanDays_never_zero_witness :
  let w := run_with [("STALE_OLDER_THAN_DAYS", "0")] EmptyString in
  Number.truthy (getStaleOlderThanDays w) = true /\
  getStaleOlderThanDays w <> NaN /\
  js_eq (getStaleOlderThanDays w) (of_Z 0) = false /\
  getStaleOlderThanDays w = Fin (inject_Z 2).
Proof.
  intros w.
  destruct (getStaleOlderThanDays_never_zero w) as (H1 & H2 & H3 & H4).
  exact (conj H1 (conj H2 (conj H3 (H4 eq_refl)))).
Defined.

(** X7.  When required fields are missing, [createSendEmailParams]
    returns nothing and logs one error only, naming the first missing
    field in the order alertTo, alertSubject, alertFrom, alertReplyTo,
    message; it returns a request exactly when none is missing. *)
Theorem createSendEmailParams_first_missing (config : gmap string value) :
  (forall name, first_missing config = Some name ->
     createSendEmailParams config
     = ([console_error
           (LText ("Error: missing required argument for createSendEmailParams:"
                   ++ name)) LUndefined], inr None)) /\
  (first_missing config = None <->
     exists p, createSendEmailParams config = ([], inr (Some p))).
Proof.
  rewrite createSendEmailParams_cases. split.
  - now intros name ->.
  - destruct (first_missing config) as [name|]; split.
    + discriminate.
    + intros [p H]. discriminate.
    + intros _. eexists. reflexivity.
    + reflexivity.
Qed.

Lemma createSendEmailParams_first_missing_witness :
  createSendEmailParams
    (list_to_map [("alertTo", VStr "alerts@prebid.org");
                  ("alertFrom", VStr "alerts@prebid.org");
                  ("alertReplyTo", VStr EmptyString)])
  = ([console_error
        (LText "Error: missing required argument for createSendEmailParams:alertSubject")
        LUndefined], inr None).
Proof.
  exact (proj1 (createSendEmailParams_first_missing
                  (list_to_map [("alertTo", VStr "alerts@prebid.org");
                                ("alertFrom", VStr "alerts@prebid.org");
                                ("alertReplyTo", VStr EmptyString)]))
               "alertSubject" eq_refl).
Defined.

Lemma value_step_defined el mem (s : string) (rest : string) :
  Json.value_step el mem s <> Some (VUndefined, rest).
Proof.
  unfold Json.value_step, Json.literal.
  destruct (Json.skip_ws s) as [|c s']; [discriminate|].
  repeat match goal with
         | |- context [if ?b then _ else _] => destruct b
         | |- context [match ?x with _ => _ end] => destruct x
         end; discriminate.
Qed.

Lemma Json_parse_defined (text : string) : Json.parse text <> Some VUndefined.
Proof.
  unfold Json.parse.
  destruct (Json.parse_value _ text) as [[v rest]|] eqn:E; [|discriminate].
  destruct (Json.skip_ws rest); [|discriminate].
  intros [= ->].
  replace (2 * String.length text + 2)%nat
    with (S (2 * String.length text + 1)) in E by lia.
  cbn [Json.parse_value] in E. now apply value_step_defined in E.
Qed.

(** X16.  [parseJson] never throws.  It returns [undefined] exactly when
    the text is not valid JSON, and that is the only case in which it
    logs: one error, with the text. *)
Theorem parseJson_undefined_iff_malformed (data : string) :
  exists v,
    outcome (parseJson data) = inr v /\
    (v = VUndefined <-> Json.parse data = None) /\
    trace (parseJson data)
    = match v with
      | VUndefined => [console_error (LText "Error: malformed json:") (LText data)]
      | _ => []
      end.
Proof.
  rewrite parseJson_cases.
  pose proof (Json_parse_defined data) as Hd.
  destruct (Json.parse data) as [v|].
  - exists v. split; [reflexivity|]. split.
    + split; [intros ->; contradiction|discriminate].
    + cbn [trace fst]. destruct v; [contradiction|reflexivity..].
  - exists VUndefined. repeat split.
Qed.

(** ** Alerting and the handler *)

Lemma first_missing_alert (w : world) (r : result) :
  first_missing
    (list_to_map
       [("alertTo", getAlertTo w); ("alertSubject", getAlertSubject w);
        ("alertFrom", getAlertFrom w); ("alertReplyTo", getAlertFrom w);
        ("message", VStr (message r))])
  = if String.eqb (message r) EmptyString then Some "message" else None.
Proof.
  unfold first_missing, prop. cbn [list_to_map foldr uncurry].
  cbn [find]. simplify_map_eq. cbn [default].
  rewrite getAlertTo_truthy, getAlertSubject_truthy, getAlertFrom_truthy.
  cbn [negb truthy]. now destruct (String.eqb (message r) EmptyString).
Qed.

(** What [sendAlert] does, case by case. *)
Lemma sendAlert_cases (w : world) (res : option result) (context : option Context) :
  sendAlert w res context =
  match res with
  | None =>
      ([console_error (LText "Error: result argument is undefined for sendAlert")
                      LUndefined], inr tt)
  | Some r =>
      if String.eqb (message r) EmptyString then
        ([console_error
            (LText "Error: missing required argument for createSendEmailParams:message")
            LUndefined;
          console_error (LText "Error missing argument for sendAlert") LUndefined],
         inr tt)
      else
        match context with
        | None =>
            ([console_error
                (LText ("Error: missing " ++ dquote ++ "context" ++ dquote
                        ++ " argument for sendEmailHandler")) LUndefined;
              console_error (LText "Error missing arguments for sendAlert")
                            LUndefined], inr tt)
        | Some _ =>
            (ses_sendEmail (alert_request w r)
               :: trace (sendEmailCallback w r (sent w)), inr tt)
        end
  end.
Proof.
  destruct res as [r|]; [|reflexivity].
  destruct (String.eqb (message r) EmptyString) eqn:E.
  - unfold sendAlert. rewrite createSendEmailParams_cases, first_missing_alert, E.
    reflexivity.
  - destruct context as [c|].
    + apply sendAlert_sends. intros H. rewrite H in E. discriminate.
    + unfold sendAlert. rewrite createSendEmailParams_cases, first_missing_alert, E.
      reflexivity.
Qed.

Lemma alerts_app (t1 t2 : list event) :
  alerts (app t1 t2) = app (alerts t1) (alerts t2).
Proof.
  induction t1 as [|e t1 IH]; [reflexivity|].
  destruct e; cbn [app alerts]; now rewrite IH.
Qed.

Lemma fetches_app (t1 t2 : list event) :
  fetches (app t1 t2) = app (fetches t1) (fetches t2).
Proof.
  induction t1 as [|e t1 IH]; [reflexivity|].
  destruct e; cbn [app fetches]; now rewrite IH.
Qed.

Lemma without_logs_app (t1 t2 : list event) :
  without_logs (app t1 t2) = app (without_logs t1) (without_logs t2).
Proof.
  induction t1 as [|e t1 IH]; [reflexivity|].
  destruct e; cbn [app without_logs]; now rewrite IH.
Qed.

Lemma process_env_with_DEBUG (setting : option string) (w : world) (name : string) :
  name <> "DEBUG" ->
  env (with_DEBUG setting w) !! name = env w !! name.
Proof.
  intros H. unfold with_DEBUG. cbn [env]. destruct setting.
  - now rewrite lookup_insert_ne.
  - now rewrite lookup_delete_ne.
Qed.

Lemma alert_request_with_DEBUG (setting : option string) (w : world) (r : result) :
  alert_request (with_DEBUG setting w) r = alert_request w r.
Proof.
  unfold alert_request, getAlertTo, getAlertSubject, getAlertFrom, process_env.
  now rewrite !process_env_with_DEBUG by discriminate.
Qed.

(** X1.  [DEBUG] only decides whether [console.log] lines are written:
    with it set to any text, or unset, the handler makes the same
    requests, logs the same errors, completes the same way and ends with
    the same outcome. *)
Theorem DEBUG_only_affects_logs
    (Date_parse : string -> jsnum) (w : world) (setting : option string)
    (event : value) (context : option Context) :
  without_logs (trace (handler Date_parse (with_DEBUG setting w) event context))
  = without_logs (trace (handler Date_parse w event context)) /\
  outcome (handler Date_parse (with_DEBUG setting w) event context)
  = outcome (handler Date_parse w event context).
Proof.
  destruct context as [c|].
  - rewrite !handler_trace. cbn [trace outcome fst snd].
    rewrite !s3GetObjectCallback_outcome, !s3GetObjectCallback_trace.
    rewrite !without_logs_app, !log_trace.
    unfold getBucket, getFilename, process_env.
    rewrite !process_env_with_DEBUG by discriminate.
    cbn [fetched sent with_DEBUG]. split; [|reflexivity].
    f_equal.
    { now destruct (getDebug (with_DEBUG setting w)), (getDebug w). }
    cbn [without_logs]. f_equal.
    destruct (fetched w) as [err|data]; [|reflexivity].
    cbv zeta. cbn [without_logs]. rewrite !alert_request_with_DEBUG.
    do 2 f_equal. rewrite !without_logs_app. f_equal.
    destruct (sent w); [reflexivity|]. rewrite !log_trace.
    now destruct (getDebug (with_DEBUG setting w)), (getDebug w).
  - rewrite !handler_no_context. cbn [trace outcome fst snd].
    rewrite !without_logs_app, !log_trace. split; [|reflexivity]. f_equal.
    now destruct (getDebug (with_DEBUG setting w)), (getDebug w).
Qed.

(** X4.  With a context the handler makes exactly one S3 request, for the
    resolved bucket and key, neither of them empty; without a context it
    makes no request, sends no alert and logs one error. *)
Theorem handler_fetches_iff_context
    (Date_parse : string -> jsnum) (w : world) (event : value) :
  (forall c,
     fetches (trace (handler Date_parse w event (Some c)))
     = [{| S3.Bucket := getBucket w; S3.Key := getFilename w |}]) /\
  truthy (getBucket w) = true /\ truthy (getFilename w) = true /\
  fetches (trace (handler Date_parse w event None)) = [] /\
  alerts (trace (handler Date_parse w event None)) = [] /\
  errors_logged (trace (handler Date_parse w event None))
  = [(LText "Error: invalid arguments for s3GetObjectHandler", LUndefined)].
Proof.
  split; [|split; [apply getBucket_truthy|split; [apply getFilename_truthy|]]].
  - intros c. rewrite handler_trace. cbn [trace fst].
    rewrite fetches_app, log_trace, s3GetObjectCallback_trace.
    cbn [fetches]. 
    replace (fetches (if getDebug w then [console_log (LEvent event)] else []))
      with (@nil S3.GetObjectRequest) by now destruct (getDebug w).
    cbn [app]. f_equal.
    destruct (fetched w) as [err|data].
    + cbv zeta. cbn [fetches]. rewrite fetches_app. cbn [fetches app].
      destruct (sent w); [reflexivity|]. rewrite log_trace.
      now destruct (getDebug w).
    + now destruct (Json.parse (S3.Body data)).
  - rewrite handler_no_context. cbn [trace fst]. rewrite log_trace.
    now destruct (getDebug w).
Qed.

(** X5.  [sendAlert] sends exactly when it is given a result with a
    non-empty message and a context, and it completes the invocation
    exactly when it sends, after sending; otherwise it logs an error and
    returns, leaving the invocation without completion.  It never
    throws. *)
Theorem sendAlert_sends_iff (w : world) (res : option result)
    (context : option Context) :
  let t := trace (sendAlert w res context) in
  (alerts t <> [] <->
     exists r c, res = Some r /\ context = Some c /\ message r <> EmptyString) /\
  (forall r, alerts t <> [] -> res = Some r ->
     exists logs, t = ses_sendEmail (alert_request w r)
                        :: app logs [context_done VNull r] /\
                  done_calls logs = [] /\ alerts logs = []) /\
  (alerts t = [] -> done_calls t = [] /\ errors_logged t <> []) /\
  outcome (sendAlert w res context) = inr tt.
Proof.
  intros t. unfold t. rewrite sendAlert_cases.
  destruct res as [r|].
  - destruct (String.eqb (message r) EmptyString) eqn:E.
    + apply String.eqb_eq in E. repeat split; try easy.
      intros (r' & c & [= <-] & _ & H). contradiction.
    + assert (Hm : message r <> EmptyString).
      { intros H. rewrite H in E. discriminate. }
      destruct context as [c|].
      * cbn [trace fst outcome snd]. rewrite sendEmailCallback_trace.
        repeat split; try easy.
        -- intros _. now exists r, c.
        -- intros r' _ [= <-]. eexists. split; [reflexivity|].
           destruct (sent w); [now split|]. rewrite log_trace.
           now destruct (getDebug w).
      * repeat split; try easy.
        intros (r' & c & _ & [=] & _).
  - repeat split; try easy. intros (r & c & [=] & _).
Qed.

(** X6.  Every request [sendAlert] hands to SES has the sender as its
    only reply-to address, a non-empty sender, recipient and subject, the
    message of the result as body text, and UTF-8 for both charsets. *)
Theorem sendAlert_request_shape (w : world) (r : result)
    (context : option Context) (p : SES.SendEmailRequest) :
  In p (alerts (trace (sendAlert w (Some r) context))) ->
  SES.ReplyToAddresses p = [SES.Source p] /\
  truthy (SES.Source p) = true /\
  truthy (SES.ToAddresses (SES.Destination_ p)) = true /\
  truthy (SES.Data (SES.Subject (SES.Message_ p))) = true /\
  SES.Data (SES.Text (SES.Body_ (SES.Message_ p))) = VStr (message r) /\
  SES.Charset (SES.Subject (SES.Message_ p)) = "UTF-8" /\
  SES.Charset (SES.Text (SES.Body_ (SES.Message_ p))) = "UTF-8".
Proof.
  rewrite sendAlert_cases.
  destruct (String.eqb (message r) EmptyString); [intros []|].
  destruct context as [c|]; [|intros []].
  cbn [trace fst alerts]. rewrite alerts_sendEmailCallback.
  intros [<-|[]]. cbn.
  rewrite getAlertFrom_truthy, getAlertTo_truthy, getAlertSubject_truthy.
  now repeat split.
Qed.

Lemma sendAlert_request_shape_witness :
  let p := alert_request fetch_denied (createResult "stale") in
  SES.ReplyToAddresses p = [SES.Source p] /\
  truthy (SES.Source p) = true /\
  truthy (SES.ToAddresses (SES.Destination_ p)) = true /\
  truthy (SES.Data (SES.Subject (SES.Message_ p))) = true /\
  SES.Data (SES.Text (SES.Body_ (SES.Message_ p))) = VStr "stale" /\
  SES.Charset (SES.Subject (SES.Message_ p)) = "UTF-8" /\
  SES.Charset (SES.Text (SES.Body_ (SES.Message_ p))) = "UTF-8".
Proof.
  intros p.
  apply (sendAlert_request_shape fetch_denied (createResult "stale")
           (Some LambdaContext) p).
  vm_compute. left. reflexivity.
Defined.

(** X8.  Whatever the body, the context and the environment,
    [currencyRatesLoadSuccess] sends no alert and does not invoke
    [context.done]: it returns on a body without a truthy value and
    throws on any other, so the stale alert is never sent. *)
Theorem currencyRatesLoadSuccess_never_alerts
    (Date_parse : string -> jsnum) (w : world) (data : S3.GetObjectOutput)
    (context : option Context) :
  let run := currencyRatesLoadSuccess Date_parse w data context in
  alerts (trace run) = [] /\
  done_calls (trace run) = [] /\
  (outcome run = inr tt <-> parses_truthy (S3.Body data) = false).
Proof.
  intros run. unfold run. rewrite currencyRatesLoadSuccess_cases.
  unfold parses_truthy.
  destruct (Json.parse (S3.Body data)) as [v|]; [|now repeat split].
  destruct (truthy v); now repeat split.
Qed.

(** X9.  The handler sends an alert exactly when it has a context and the
    fetch failed; it sends at most one, makes at most one S3 request, and
    invokes [context.done] as many times as it sends alerts. *)
Theorem handler_alerts_iff_fetch_failed
    (Date_parse : string -> jsnum) (w : world) (event : value)
    (context : option Context) :
  let t := trace (handler Date_parse w event context) in
  (alerts t <> [] <-> context <> None /\ exists err, fetched w = inl err) /\
  (length (alerts t) <= 1)%nat /\
  (length (fetches t) <= 1)%nat /\
  length (done_calls t) = length (alerts t).
Proof.
  intros t. unfold t. destruct context as [c|].
  - rewrite handler_trace. cbn [trace fst].
    rewrite alerts_app, fetches_app, done_calls_app, done_calls_log.
    rewrite log_trace, s3GetObjectCallback_trace.
    replace (alerts (if getDebug w then [console_log (LEvent event)] else []))
      with (@nil SES.SendEmailRequest) by now destruct (getDebug w).
    replace (fetches (if getDebug w then [console_log (LEvent event)] else []))
      with (@nil S3.GetObjectRequest) by now destruct (getDebug w).
    cbn [app alerts fetches done_calls].
    destruct (fetched w) as [err|data].
    + cbv zeta. cbn [alerts fetches done_calls].
      rewrite alerts_app, fetches_app, done_calls_app. cbn [alerts fetches done_calls].
      destruct (sent w).
      * cbn. repeat split; try easy; try lia. now exists err.
      * rewrite log_trace. destruct (getDebug w); cbn;
          repeat split; try easy; try lia; now exists err.
    + destruct (Json.parse (S3.Body data)); cbn; repeat split; try easy; try lia;
        intros [_ [err [=]]].
  - rewrite handler_no_context. cbn [trace fst]. rewrite log_trace.
    destruct (getDebug w); cbn; repeat split; try easy; try lia;
      intros [H _]; contradiction.
Qed.

(** ** Reading the threshold from the environment *)

Lemma digit_of_pretty_N_char (d : N) :
  (d < 10)%N -> digit_of (pretty_N_char d) = Some d.
Proof.
  intros H.
  assert (d = 0 \/ d = 1 \/ d = 2 \/ d = 3 \/ d = 4 \/ d = 5 \/ d = 6 \/ d = 7
          \/ d = 8 \/ d = 9)%N as Hd by lia.
  repeat (destruct Hd as [-> | Hd]; [reflexivity|]). now subst.
Qed.

(** Reading back what [pretty_N_go] wrote in front of [s]. *)
Lemma read_digits_pretty_N_go (x : N) (s : string) :
  exists k : nat, (x < 10 ^ N.of_nat k)%N /\
    forall acc count,
      read_digits acc count (pretty_N_go x s)
      = read_digits (acc * 10 ^ N.of_nat k + x) (count + k) s.
Proof.
  revert s. induction (N.lt_wf_0 x) as [x _ IH]. intros s.
  destruct (N.eq_dec x 0%N) as [-> | Hx].
  - exists O. split; [reflexivity|]. intros acc count.
    rewrite pretty_N_go_0. f_equal; lia.
  - assert (Hpos : (0 < x)%N) by lia.
    rewrite pretty_N_go_step by assumption.
    destruct (IH (x / 10)%N (N.div_lt x 10 Hpos eq_refl)
                 (String (pretty_N_char (x mod 10)) s)) as (k & Hk & Hread).
    exists (S k). split.
    + rewrite Nat2N.inj_succ, N.pow_succ_r'.
      pose proof (N.div_mod x 10). pose proof (N.mod_lt x 10). lia.
    + intros acc count. rewrite Hread. cbn [read_digits].
      rewrite digit_of_pretty_N_char by (apply N.mod_lt; discriminate).
      rewrite Nat2N.inj_succ, N.pow_succ_r'.
      pose proof (N.div_mod x 10). f_equal; [lia|lia].
Qed.

Lemma pretty_N_go_first (x : N) (s : string) :
  (0 < x)%N ->
  exists d rest, (d < 10)%N /\ pretty_N_go x s = String (pretty_N_char d) rest.
Proof.
  revert s. induction (N.lt_wf_0 x) as [x _ IH]. intros s Hpos.
  rewrite pretty_N_go_step by assumption.
  destruct (N.eq_dec (N.div x 10) 0%N) as [Hq0 | Hq].
  - rewrite Hq0, pretty_N_go_0. eexists _, _. split; [|reflexivity].
    apply N.mod_lt. discriminate.
  - apply IH; [now apply N.div_lt|now apply N.neq_0_lt_0].
Qed.

Lemma starts_with_digit (text : string) (d : N) (rest : string) :
  (d < 10)%N -> text = String (pretty_N_char d) rest ->
  trim_start (String.length text) text = text /\
  match text with
  | String "-"%char r => (true, r)
  | String "+"%char r => (false, r)
  | _ => (false, text)
  end = (false, text) /\
  is_prefix_of "Infinity" text = false.
Proof.
  intros H ->.
  assert (d = 0 \/ d = 1 \/ d = 2 \/ d = 3 \/ d = 4 \/ d = 5 \/ d = 6 \/ d = 7
          \/ d = 8 \/ d = 9)%N as Hd by lia.
  repeat (destruct Hd as [-> | Hd]; [now vm_compute|]). subst. now vm_compute.
Qed.

(** [parseFloat] reads a positive whole number back from its decimal text. *)
Lemma parseFloat_string_pretty (n : N) :
  (0 < n)%N -> parseFloat_string (pretty n) = of_Z (Z.of_N n).
Proof.
  intros Hn. unfold pretty, pretty_N. rewrite decide_False by lia.
  destruct (pretty_N_go_first n EmptyString Hn) as (d & rest & Hd & Htext).
  destruct (starts_with_digit _ d rest Hd Htext) as (Ht & Hs & Hi).
  destruct (read_digits_pretty_N_go n EmptyString) as (k & Hk & Hread).
  specialize (Hread 0%N 0%nat). cbn [read_digits Nat.add N.mul N.add] in Hread.
  unfold parseFloat_string. rewrite Ht, Hs, Hi, Hread.
  destruct k as [|k]; [cbn in Hk; lia|].
  cbn [Nat.add read_exponent]. unfold signed, decimal_value, of_Z.
  cbn [Z.of_nat Z.sub Z.opp Z.add Z.leb Z.compare Z.pow Z.pow_pos]. 
  now rewrite Z.mul_1_r.
Qed.

(** X17.  A positive whole number of days below 2^53, written in decimal
    in [STALE_OLDER_THAN_DAYS], is the threshold [getStaleOlderThanDays]
    returns, exactly. *)
Theorem getStaleOlderThanDays_reads_whole_days (w : world) (n : N) :
  (0 < n < 2 ^ 53)%N ->
  env w !! "STALE_OLDER_THAN_DAYS" = Some (pretty n) ->
  getStaleOlderThanDays w = Fin (inject_Z (Z.of_N n)).
Proof.
  intros [Hpos Hlt] Henv. unfold getStaleOlderThanDays, parseFloat.
  rewrite Henv.
  change (default "undefined" (Some (pretty n))) with (pretty n).
  rewrite parseFloat_string_pretty by assumption.
  unfold of_Z. rewrite binary64_int; cbn [Qnum Qden inject_Z]; [|reflexivity|lia].
  cbn [Number.truthy].
  destruct (Qeq_bool (inject_Z (Z.of_N n)) 0) eqn:E; [|reflexivity].
  apply Qeq_bool_eq in E. unfold Qeq in E. cbn in E. lia.
Qed.

Lemma getStaleOlderThanDays_reads_whole_days_witness :
  let w := run_with [("STALE_OLDER_THAN_DAYS", "7")] EmptyString in
  (0 < 7 < 2 ^ 53)%N /\
  env w !! "STALE_OLDER_THAN_DAYS" = Some (pretty 7%N) /\
  getStaleOlderThanDays w = Fin (inject_Z (Z.of_N 7)).
Proof.
  intros w.
  assert (H1 : (0 < 7 < 2 ^ 53)%N) by (split; reflexivity).
  assert (H2 : env w !! "STALE_OLDER_THAN_DAYS" = Some (pretty 7%N))
    by (vm_compute; reflexivity).
  exact (conj H1 (conj H2 (getStaleOlderThanDays_reads_whole_days w 7 H1 H2))).
Defined.
